(** * Timer and ScopedTimer (src/include/timer.h)

    A shallow embedding of the [Timer] stopwatch class and of the
    [ScopedTimer] helper, with both build branches of the platform clock
    ([struct timeval] from [gettimeofday], and [LARGE_INTEGER] from
    [QueryPerformanceCounter]).

    - [double] is IEEE 754 binary64, as the inductive [spec_float] of the
      Standard Library with precision 53 and maximal exponent 1024;
    - [long] (and [LONGLONG]) is a 64-bit two's complement integer, a [Z]
      with the wrap-around of the subtraction written out;
    - the platform clock is an oracle: a sequence of readings, of which
      every call of [now()] consumes the next one;
    - member functions are computations in a state monad over the object
      ([*this]) and the clock;
    - a [ScopedTimer] holds a reference: an address in a store of timers. *)

From Stdlib Require Import ZArith Bool List Lia.
Import ListNotations.
From Stdlib Require Import Floats.SpecFloat.
From stdpp Require Import base option gmap.

Local Open Scope Z_scope.

(** ** Double precision arithmetic *)

Module Double.

Definition prec : Z := 53.
Definition emax : Z := 1024.

Definition double : Type := spec_float.

Definition dadd : double -> double -> double := SFadd prec emax.
Definition ddiv : double -> double -> double := SFdiv prec emax.
Definition fabs : double -> double := SFabs.

(** [(double) z] for an integer [z]: rounded to nearest, ties to even. *)
Definition of_Z (z : Z) : double := binary_normalize prec emax z 0 false.

(** The literals [0] (converted to double) and [1e6]. *)
Definition d_zero : double := S754_zero false.
Definition d_1e6 : double := Eval cbv in of_Z 1000000.

(** [0.0 <= x], the comparison of IEEE 754 (false on a NaN). *)
Definition nonneg (x : double) : bool := SFleb d_zero x.

(** [x < 0.0]. *)
Definition negative (x : double) : bool := SFltb x d_zero.

(** The sign bit is clear and [x] is a number: [+0], a positive finite
    number or [+infinity]. *)
Definition sign_clear (x : double) : bool :=
  match x with
  | S754_nan => false
  | S754_zero s | S754_infinity s | S754_finite s _ _ => negb s
  end.

Definition is_nan (x : double) : bool :=
  match x with S754_nan => true | _ => false end.

(** A zero or a finite number: neither a NaN nor an infinity. *)
Definition is_finite (x : double) : bool :=
  match x with
  | S754_zero _ | S754_finite _ _ _ => true
  | _ => false
  end.

(** [x] is a number whose sign bit is [s]. *)
Definition signed (s : bool) (x : double) : bool :=
  match x with
  | S754_nan => false
  | S754_zero s' | S754_infinity s' | S754_finite s' _ _ => eqb s' s
  end.

End Double.

Import Double.

(** ** 64-bit signed integers *)

Module Long.

Definition modulus : Z := 2 ^ 64.
Definition min_signed : Z := - 2 ^ 63.
Definition max_signed : Z := 2 ^ 63 - 1.

Definition in_range (z : Z) : Prop := min_signed <= z <= max_signed.

(** Reduction into the range of [long], two's complement. *)
Definition wrap (z : Z) : Z := (z + 2 ^ 63) mod modulus - 2 ^ 63.

(** [a - b] on [long]. An overflow is undefined behaviour in C++; the model
    wraps around, as the compiled code does. *)
Definition sub (a b : Z) : Z := wrap (a - b).

End Long.

(** ** The platform clock *)

(** What the two build branches provide: the type [value_t] of an instant
    and the static member [diff (then, now)], a difference in seconds. *)
Class ClockSource : Type := {
  value_t : Type;
  diff : value_t -> value_t -> double
}.

(** *** POSIX branch: [struct timeval] *)

Record timeval : Type := { tv_sec : Z; tv_usec : Z }.

Definition posix_diff (then_ now_ : timeval) : double :=
  fabs (dadd (of_Z (Long.sub (tv_sec now_) (tv_sec then_)))
             (ddiv (of_Z (Long.sub (tv_usec now_) (tv_usec then_))) d_1e6)).

(** Both subtractions of [diff] are defined for the two instants, in either
    order: no difference of their fields overflows a [long]. *)
Definition subtractable (a b : timeval) : Prop :=
  Long.in_range (tv_sec b - tv_sec a) /\ Long.in_range (tv_sec a - tv_sec b) /\
  Long.in_range (tv_usec b - tv_usec a) /\ Long.in_range (tv_usec a - tv_usec b).

(** What [gettimeofday] stores: the seconds since the Epoch and the
    microseconds of the current second. *)
Definition normalized (a : timeval) : Prop :=
  0 <= tv_sec a <= Long.max_signed /\ 0 <= tv_usec a < 1000000.

Definition Posix : ClockSource :=
  {| value_t := timeval; diff := posix_diff |}.

(** *** _WIN32 branch: [LARGE_INTEGER] *)

Record LARGE_INTEGER : Type := { QuadPart : Z }.

(** [freq] is what [QueryPerformanceFrequency] stores: the counts per
    second of the performance counter, fixed at system boot. *)
Definition win32_diff (freq : LARGE_INTEGER) (then_ now_ : LARGE_INTEGER)
  : double :=
  ddiv (of_Z (Long.sub (QuadPart now_) (QuadPart then_)))
       (of_Z (QuadPart freq)).

Definition Win32 (freq : LARGE_INTEGER) : ClockSource :=
  {| value_t := LARGE_INTEGER; diff := win32_diff freq |}.

(** ** Member functions as computations *)

(** The clock oracle: [readings] is the sequence of instants the platform
    will report, [position] counts the calls of [now()] made so far. *)
Record Clock `{ClockSource} : Type := {
  readings : nat -> value_t;
  position : nat
}.

(** The instant the next call of [now()] reports, and the clock after it. *)
Definition reading `{ClockSource} (c : Clock) : value_t :=
  readings c (position c).
Definition advance `{ClockSource} (c : Clock) : Clock :=
  {| readings := readings c; position := S (position c) |}.

(** A member function of an object of type [T] with a result in [A]: it
    may read and write the object and read the clock. *)
Definition Method `{ClockSource} (T A : Type) : Type :=
  T -> Clock -> A * T * Clock.

Definition ret `{ClockSource} {T A : Type} (a : A) : Method T A :=
  fun this c => (a, this, c).

Definition bind `{ClockSource} {T A B : Type}
    (m : Method T A) (k : A -> Method T B) : Method T B :=
  fun this c => let '(a, this', c') := m this c in k a this' c'.

Notation "x <- m ;; k" := (bind m (fun x => k))
  (at level 20, m at level 99, k at level 200, only parsing).

(** Reading a field of [*this]. *)
Definition get `{ClockSource} {T A : Type} (field : T -> A) : Method T A :=
  fun this c => (field this, this, c).

(** Updating [*this]. *)
Definition modify `{ClockSource} {T : Type} (f : T -> T) : Method T unit :=
  fun this c => (tt, f this, c).

(** The object and the clock a computation leaves, and its result. *)
Definition result `{ClockSource} {T A : Type} (r : A * T * Clock) : A :=
  fst (fst r).
Definition object `{ClockSource} {T A : Type} (r : A * T * Clock) : T :=
  snd (fst r).
Definition clock `{ClockSource} {T A : Type} (r : A * T * Clock) : Clock :=
  snd r.

(** ** class Timer *)

Module Timer.
Section WithClock.
Context `{CS : ClockSource}.

Record t : Type := {
  m_ticking : bool;        (* Are we currently ticking? *)
  m_starttime : value_t;   (* Time since last call to start() *)
  m_elapsed : double       (* Time elapsed BEFORE the current start(). *)
}.

Definition set_ticking (b : bool) : Method t unit :=
  modify (fun this => {| m_ticking := b;
                         m_starttime := m_starttime this;
                         m_elapsed := m_elapsed this |}).

Definition set_starttime (v : value_t) : Method t unit :=
  modify (fun this => {| m_ticking := m_ticking this;
                         m_starttime := v;
                         m_elapsed := m_elapsed this |}).

Definition set_elapsed (e : double) : Method t unit :=
  modify (fun this => {| m_ticking := m_ticking this;
                         m_starttime := m_starttime this;
                         m_elapsed := e |}).

(** [now()]: the next reading of the platform clock. *)
Definition now : Method t value_t :=
  fun this c => (reading c, this, advance c).

(** [void start ()] *)
Definition start : Method t unit :=
  ticking <- get m_ticking ;;
  if negb ticking then
    n <- now ;;
    _ <- set_starttime n ;;
    set_ticking true
  else ret tt.

(** [void stop ()] *)
Definition stop : Method t unit :=
  ticking <- get m_ticking ;;
  if ticking then
    n <- now ;;
    starttime <- get m_starttime ;;
    elapsed <- get m_elapsed ;;
    _ <- set_elapsed (dadd elapsed (diff n starttime)) ;;
    set_ticking false
  else ret tt.

(** [void reset (void)] *)
Definition reset : Method t unit :=
  _ <- set_elapsed d_zero ;;
  set_ticking false.

(** [double time_since_start (void) const] *)
Definition time_since_start : Method t double :=
  ticking <- get m_ticking ;;
  if ticking then
    n <- now ;;
    starttime <- get m_starttime ;;
    ret (diff starttime n)
  else ret d_zero.

(** [double operator() (void) const] *)
Definition elapsed_total : Method t double :=
  elapsed <- get m_elapsed ;;
  since <- time_since_start ;;
  ret (dadd elapsed since).

(** [Timer (bool startnow=true)]. The member [m_starttime] has no
    initializer: [indeterminate] is whatever its storage holds. *)
Definition construct (indeterminate : value_t) (startnow : bool)
  : Clock -> t * Clock :=
  fun c =>
    let this := {| m_ticking := false;
                   m_starttime := indeterminate;
                   m_elapsed := d_zero |} in
    let r := (if startnow then start else ret tt) this c in
    (object r, clock r).

(** The calls a client can make on a timer. *)
Inductive call : Type :=
| Start | Stop | Reset | ElapsedTotal | TimeSinceStart.

Definition perform (op : call) (this : t) (c : Clock) : t * Clock :=
  match op with
  | Start => let r := start this c in (object r, clock r)
  | Stop => let r := stop this c in (object r, clock r)
  | Reset => let r := reset this c in (object r, clock r)
  | ElapsedTotal => let r := elapsed_total this c in (object r, clock r)
  | TimeSinceStart => let r := time_since_start this c in (object r, clock r)
  end.

Fixpoint run (ops : list call) (this : t) (c : Clock) : t * Clock :=
  match ops with
  | [] => (this, c)
  | op :: ops' => let '(this', c') := perform op this c in run ops' this' c'
  end.

(** The timers a program can hold: a constructed one, after any calls. *)
Inductive reachable : t -> Prop :=
| reachable_construct indeterminate startnow c :
    reachable (fst (construct indeterminate startnow c))
| reachable_perform op this c :
    reachable this -> reachable (fst (perform op this c)).

(** *** Segments

    The segments of a sequence of calls, read off the calls and the clock
    alone: a segment opens at a [Start] made while no segment is open (this
    reads the clock) and closes at the next [Stop] (which reads the clock
    again). [open] is the instant at which the open segment started. The
    other calls are no part of such a sequence ([well_bracketed]) and are
    passed over. *)
Fixpoint segments (ops : list call) (open : option value_t) (c : Clock)
  : list (value_t * value_t) :=
  match ops with
  | [] => []
  | Start :: ops' =>
      match open with
      | None => segments ops' (Some (reading c)) (advance c)
      | Some _ => segments ops' open c
      end
  | Stop :: ops' =>
      match open with
      | Some s => (s, reading c) :: segments ops' None (advance c)
      | None => segments ops' None c
      end
  | _ :: ops' => segments ops' open c
  end.

(** A sequence of [Start] and [Stop] calls with no [Start] while a segment
    is open, and with no segment left open at its end. *)
Fixpoint well_bracketed (ops : list call) (open : bool) : bool :=
  match ops with
  | [] => negb open
  | Start :: ops' => negb open && well_bracketed ops' true
  | Stop :: ops' => well_bracketed ops' false
  | _ :: _ => false
  end.

(** The measured duration of a segment: the difference from the instant
    of its start ([then]) to the instant of its stop ([now]). *)
Definition duration (seg : value_t * value_t) : double :=
  diff (fst seg) (snd seg).

(** The sum of the durations, in the order of the segments. *)
Definition total_duration (segs : list (value_t * value_t)) : double :=
  fold_left (fun acc seg => dadd acc (duration seg)) segs d_zero.

(** The segment that is open in a timer. *)
Definition open_segment (this : t) : option value_t :=
  if m_ticking this then Some (m_starttime this) else None.

(** What the calls of [stop()] add up, from [e] on: each segment adds
    [diff (n, m_starttime)], the instant of the stop first. *)
Definition accumulate (e : double) (segs : list (value_t * value_t)) : double :=
  fold_left (fun acc seg => dadd acc (diff (snd seg) (fst seg))) segs e.

End WithClock.
End Timer.

(** ** template <class TIMER=Timer> class ScopedTimer *)

(** What the template asks of its parameter [TIMER]: the three member
    functions the scoped timer calls through its reference. *)
Class TIMER `{ClockSource} (T : Type) : Type := {
  timer_start : Method T unit;
  timer_stop : Method T unit;
  timer_reset : Method T unit
}.

(** The default argument of the template. *)
#[global] Instance Timer_TIMER `{ClockSource} : TIMER Timer.t :=
  {| timer_start := Timer.start;
     timer_stop := Timer.stop;
     timer_reset := Timer.reset |}.

(** The timers of the program live in a store; a reference [TIMER &] is an
    address in it. *)
Definition address : Type := positive.

Record World `{ClockSource} (T : Type) : Type := {
  store : gmap address T;
  world_clock : Clock
}.
Arguments store {_ _} _.
Arguments world_clock {_ _} _.

(** A member function called through a reference: it runs on the object
    the reference designates and leaves its new state there. A reference
    to no object (one that outlived its timer) has no defined behaviour:
    [None]. *)
Definition through `{ClockSource} {T A : Type}
    (ref : address) (m : Method T A) (w : World T) : option (A * World T) :=
  match store w !! ref with
  | Some obj =>
      let r := m obj (world_clock w) in
      Some (result r,
            {| store := <[ref := object r]> (store w);
               world_clock := clock r |})
  | None => None
  end.

Module ScopedTimer.
Section WithTimer.
Context `{CS : ClockSource} {T : Type} `{!TIMER T}.

Record t : Type := { m_timer : address }.

(** [void start ()] *)
Definition start (this : t) : World T -> option (unit * World T) :=
  through (m_timer this) timer_start.

(** [void stop ()] *)
Definition stop (this : t) : World T -> option (unit * World T) :=
  through (m_timer this) timer_stop.

(** [void reset ()] *)
Definition reset (this : t) : World T -> option (unit * World T) :=
  through (m_timer this) timer_reset.

(** [ScopedTimer (TIMER &t) : m_timer(t) { start(); }] *)
Definition construct (ref : address) (w : World T) : option (t * World T) :=
  let this := {| m_timer := ref |} in
  match start this w with
  | Some (_, w') => Some (this, w')
  | None => None
  end.

(** [~ScopedTimer () { stop(); }] *)
Definition destruct (this : t) (w : World T) : option (unit * World T) :=
  stop this w.

End WithTimer.
End ScopedTimer.

(** ** Concrete clocks, for the examples *)

(** The clock that reports the instants of [l] in turn, then [d] forever. *)
Definition clock_of `{ClockSource} (l : list value_t) (d : value_t) : Clock :=
  {| readings := fun i => nth i l d; position := 0 |}.

Definition tv (sec usec : Z) : timeval := {| tv_sec := sec; tv_usec := usec |}.
Definition li (q : Z) : LARGE_INTEGER := {| QuadPart := q |}.

(** The double [2.0]. *)
Definition d_two : double := Eval cbv in of_Z 2.

(** A POSIX clock: 100.9 s, 102.1 s, 200.0 s, 200.5 s, then the Epoch. *)
Definition posix_clock : @Clock Posix :=
  @clock_of Posix [tv 100 900000; tv 102 100000; tv 200 0; tv 200 500000] (tv 0 0).

(** A performance counter of 10 MHz. *)
Definition ten_MHz : LARGE_INTEGER := li 10000000.

(** It reads second 1, then second 3. *)
Definition win32_clock : @Clock (Win32 ten_MHz) :=
  @clock_of (Win32 ten_MHz) [li 10000000; li 30000000] (li 0).

(** It reads second 3, then second 1: a counter that went backwards. *)
Definition win32_backwards_clock : @Clock (Win32 ten_MHz) :=
  @clock_of (Win32 ten_MHz) [li 30000000; li 10000000] (li 0).

(** ** Programs over a timer and over a scoped timer *)

(** The values a sequence of calls reports: one for each query, in the
    order of the calls. *)
Fixpoint reports `{ClockSource}
    (ops : list Timer.call) (this : Timer.t) (c : Clock) : list double :=
  match ops with
  | [] => []
  | op :: ops' =>
      let rest :=
        let '(this', c') := Timer.perform op this c in reports ops' this' c' in
      match op with
      | Timer.ElapsedTotal => result (Timer.elapsed_total this c) :: rest
      | Timer.TimeSinceStart => result (Timer.time_since_start this c) :: rest
      | _ => rest
      end
  end.

(** Two timers that no call can tell apart: the same flag, the same
    accumulated time and, when ticking, the same start instant. *)
Definition same_timer `{ClockSource} (t1 t2 : Timer.t) : Prop :=
  Timer.m_ticking t1 = Timer.m_ticking t2 /\
  Timer.m_elapsed t1 = Timer.m_elapsed t2 /\
  (Timer.m_ticking t1 = true -> Timer.m_starttime t1 = Timer.m_starttime t2).

(** The two queries. *)
Definition is_query (op : Timer.call) : bool :=
  match op with
  | Timer.ElapsedTotal | Timer.TimeSinceStart => true
  | _ => false
  end.

(** The clock after [n] readings. *)
Definition advance_by `{ClockSource} (n : nat) (c : Clock) : Clock :=
  {| readings := readings c; position := (n + position c)%nat |}.

(** The calls a client can make on a scoped timer inside its scope. *)
Inductive guard_call : Type := GuardStart | GuardStop | GuardReset.

(** The call of the timer that a call of the scoped timer forwards to. *)
Definition forwarded (op : guard_call) : Timer.call :=
  match op with
  | GuardStart => Timer.Start
  | GuardStop => Timer.Stop
  | GuardReset => Timer.Reset
  end.

Definition guard_perform `{ClockSource} {T : Type} `{!TIMER T}
    (op : guard_call) (g : ScopedTimer.t) (w : World T)
  : option (unit * World T) :=
  match op with
  | GuardStart => ScopedTimer.start g w
  | GuardStop => ScopedTimer.stop g w
  | GuardReset => ScopedTimer.reset g w
  end.

Fixpoint guard_run `{ClockSource} {T : Type} `{!TIMER T}
    (ops : list guard_call) (g : ScopedTimer.t) (w : World T)
  : option (World T) :=
  match ops with
  | [] => Some w
  | op :: ops' =>
      match guard_perform op g w with
      | Some (_, w') => guard_run ops' g w'
      | None => None
      end
  end.

(** A block [{ ScopedTimer<> g (t); body }]: the constructor, the calls of
    [body] on [g], and the destructor at the end of the block. *)
Definition scope `{ClockSource} {T : Type} `{!TIMER T}
    (ref : address) (body : list guard_call) (w : World T)
  : option (World T) :=
  match ScopedTimer.construct ref w with
  | Some (g, w1) =>
      match guard_run body g w1 with
      | Some w2 =>
          match ScopedTimer.destruct g w2 with
          | Some (_, w3) => Some w3
          | None => None
          end
      | None => None
      end
  | None => None
  end.

(** The world in which the timer at [ref] is [obj] and the clock is [c]. *)
Definition world_with `{ClockSource} {T : Type}
    (w : World T) (ref : address) (obj : T) (c : Clock) : World T :=
  {| store := <[ref := obj]> (store w); world_clock := c |}.

(** [x] is a zero or a finite number, below [2 ^ B] in magnitude and with
    an exponent of at most [B]. *)
Definition below (B : Z) (x : double) : Prop :=
  match x with
  | S754_zero _ => True
  | S754_finite _ m e => e <= B /\ Z.pos (digits2_pos m) + e <= B
  | _ => False
  end.

(** A POSIX program with one timer, constructed stopped, at address 1. *)
Definition posix_world : @World Posix Timer.t :=
  {| store := {[ 1%positive :=
                   fst (@Timer.construct Posix (tv 0 0) false posix_clock) ]};
     world_clock := posix_clock |}.

(** * Properties *)

(** ** Rounding: signs *)

Section Rounding.

(** A property that one step preserves is preserved by its iteration. *)
Lemma iter_pos_invariant {A : Type} (P : A -> Prop) (f : A -> A) :
  (forall x, P x -> P (f x)) ->
  forall p x, P x -> P (SpecFloat.iter_pos f p x).
Proof.
  intros Hf p. induction p as [p IH | p IH | ]; intros x Hx; simpl.
  - apply IH, IH, Hf, Hx.
  - apply IH, IH, Hx.
  - apply Hf, Hx.
Qed.

Lemma shr_1_nonneg (mrs : shr_record) :
  0 <= shr_m mrs -> 0 <= shr_m (shr_1 mrs).
Proof.
  destruct mrs as [m r s]. simpl.
  destruct m as [ | [p | p | ] | [p | p | ]]; simpl; lia.
Qed.

Lemma shr_nonneg (mrs : shr_record) (e n : Z) :
  0 <= shr_m mrs -> 0 <= shr_m (fst (shr mrs e n)).
Proof.
  intros Hm. destruct n as [ | p | p]; simpl; try exact Hm.
  apply (iter_pos_invariant (fun x => 0 <= shr_m x)); [apply shr_1_nonneg | exact Hm].
Qed.

Lemma shr_m_of_loc (m : Z) (l : location) :
  shr_m (shr_record_of_loc m l) = m.
Proof. destruct l as [ | [ | | ]]; reflexivity. Qed.

Lemma shr_fexp_nonneg (m e : Z) (l : location) :
  0 <= m -> 0 <= shr_m (fst (shr_fexp prec emax m e l)).
Proof.
  intros Hm. unfold shr_fexp. apply shr_nonneg. rewrite shr_m_of_loc. exact Hm.
Qed.

Lemma round_nearest_even_nonneg (m : Z) (l : location) :
  0 <= m -> 0 <= round_nearest_even m l.
Proof.
  intros Hm. destruct l as [ | [ | | ]]; simpl; try lia.
  destruct (Z.even m); lia.
Qed.

(** Rounding a non-negative mantissa gives a number of the sign asked for:
    never a NaN. *)
Lemma binary_round_aux_signed (s : bool) (m e : Z) (l : location) :
  0 <= m -> signed s (binary_round_aux prec emax s m e l) = true.
Proof.
  intros Hm. unfold binary_round_aux.
  pose proof (shr_fexp_nonneg m e l Hm) as H1.
  destruct (shr_fexp prec emax m e l) as [mrs' e'] eqn:E1. simpl in H1.
  pose proof (shr_fexp_nonneg _ e' loc_Exact
                (round_nearest_even_nonneg _ (loc_of_shr_record mrs') H1)) as H2.
  destruct (shr_fexp prec emax (round_nearest_even (shr_m mrs') (loc_of_shr_record mrs')) e' loc_Exact)
    as [mrs'' e''] eqn:E2. simpl in H2.
  destruct (shr_m mrs'') as [ | p | p]; simpl.
  - apply eqb_reflx.
  - destruct (e'' <=? emax - prec); simpl; apply eqb_reflx.
  - lia.
Qed.

Lemma binary_round_signed (s : bool) (m : positive) (e : Z) :
  signed s (binary_round prec emax s m e) = true.
Proof.
  unfold binary_round.
  destruct (shl_align m e _) as [mz ez].
  apply binary_round_aux_signed. lia.
Qed.

(** The sign is only attached at the end of the rounding. *)
Lemma binary_round_aux_opp (s : bool) (m e : Z) (l : location) :
  binary_round_aux prec emax (negb s) m e l
  = SFopp (binary_round_aux prec emax s m e l).
Proof.
  unfold binary_round_aux.
  destruct (shr_fexp prec emax m e l) as [mrs' e'].
  destruct (shr_fexp prec emax _ e' loc_Exact) as [mrs'' e''].
  destruct (shr_m mrs''); try reflexivity.
  destruct (e'' <=? emax - prec); reflexivity.
Qed.

Lemma binary_round_opp (s : bool) (m : positive) (e : Z) :
  binary_round prec emax (negb s) m e = SFopp (binary_round prec emax s m e).
Proof.
  unfold binary_round. destruct (shl_align m e _) as [mz ez].
  apply binary_round_aux_opp.
Qed.

Lemma fabs_opp (x : double) : fabs (SFopp x) = fabs x.
Proof. destruct x; reflexivity. Qed.

Lemma fabs_binary_normalize_opp (z e : Z) :
  fabs (binary_normalize prec emax (- z) e false)
  = fabs (binary_normalize prec emax z e false).
Proof.
  destruct z as [ | p | p]; simpl; try reflexivity.
  - rewrite (binary_round_opp false). apply fabs_opp.
  - rewrite (binary_round_opp false). symmetry. apply fabs_opp.
Qed.

Lemma of_Z_opp (z : Z) : z <> 0 -> of_Z (- z) = SFopp (of_Z z).
Proof.
  unfold of_Z. destruct z as [ | p | p]; simpl; intros Hz.
  - congruence.
  - apply (binary_round_opp false).
  - rewrite (binary_round_opp false). 
    destruct (binary_round prec emax false p 0) as [[]|[]| |[]]; reflexivity.
Qed.

Lemma ddiv_opp_l (x y : double) : ddiv (SFopp x) y = SFopp (ddiv x y).
Proof.
  unfold ddiv.
  destruct x as [sx | sx | | sx mx ex], y as [sy | sy | | sy my ey]; simpl;
    try reflexivity; try (destruct sx, sy; reflexivity).
  destruct (SFdiv_core_binary prec emax (Z.pos mx) ex (Z.pos my) ey) as [[mz ez] lz].
  rewrite <- binary_round_aux_opp. destruct sx, sy; reflexivity.
Qed.

Lemma cond_Zopp_negb (s : bool) (z : Z) : cond_Zopp (negb s) z = - cond_Zopp s z.
Proof. destruct s; simpl; lia. Qed.

(** Negating both terms of a sum negates it, the sign of a zero apart. *)
Lemma fabs_dadd_opp (x y : double) :
  fabs (dadd (SFopp x) (SFopp y)) = fabs (dadd x y).
Proof.
  unfold dadd.
  destruct x as [sx | sx | | sx mx ex], y as [sy | sy | | sy my ey]; simpl;
    try reflexivity; try (destruct sx, sy; reflexivity).
  rewrite !cond_Zopp_negb, <- Z.opp_add_distr.
  apply fabs_binary_normalize_opp.
Qed.

Lemma fabs_dadd_zero_l (s : bool) (y : double) :
  fabs (dadd (S754_zero s) y) = fabs y.
Proof. destruct y as [sy | sy | | sy my ey], s; try destruct sy; reflexivity. Qed.

Lemma fabs_dadd_zero_r (x : double) (s : bool) :
  fabs (dadd x (S754_zero s)) = fabs x.
Proof. destruct x as [sx | sx | | sx mx ex], s; try destruct sx; reflexivity. Qed.

End Rounding.

(** ** Rounding: exponents *)

Section Exponents.

Lemma digits2_pos_succ (p : positive) :
  Z.pos (digits2_pos (Pos.succ p)) <= Z.pos (digits2_pos p) + 1.
Proof.
  induction p as [p IH | p IH | ]; simpl; lia.
Qed.

Lemma digits2_pos_bound (p : positive) :
  forall k, 0 <= k -> Z.pos p < 2 ^ k -> Z.pos (digits2_pos p) <= k.
Proof.
  induction p as [p IH | p IH | ]; intros k Hk Hp; simpl.
  - assert (k = Z.succ (k - 1)) as Ek by lia.
    destruct (Z.eq_dec k 0) as [-> | Hk0]; [simpl in Hp; lia | ].
    rewrite Ek, Z.pow_succ_r in Hp by lia.
    specialize (IH (k - 1)). lia.
  - assert (k = Z.succ (k - 1)) as Ek by lia.
    destruct (Z.eq_dec k 0) as [-> | Hk0]; [simpl in Hp; lia | ].
    rewrite Ek, Z.pow_succ_r in Hp by lia.
    specialize (IH (k - 1)). lia.
  - destruct (Z.eq_dec k 0) as [-> | Hk0]; [simpl in Hp; lia | lia].
Qed.

Lemma digits2_pos_shift (m k : positive) :
  Z.pos (digits2_pos (Pos.iter xO m k)) = Z.pos (digits2_pos m) + Z.pos k.
Proof.
  induction k as [ | k IH] using Pos.peano_ind.
  - simpl. lia.
  - rewrite Pos.iter_succ. simpl. lia.
Qed.

Lemma Zdigits2_round (m : Z) (l : location) :
  0 <= m -> Zdigits2 (round_nearest_even m l) <= Zdigits2 m + 1.
Proof.
  intros Hm.
  assert (Zdigits2 (m + 1) <= Zdigits2 m + 1) as Hs.
  { destruct m as [ | p | p]; simpl; try lia.
    rewrite Pos.add_1_r. apply digits2_pos_succ. }
  destruct l as [ | [ | | ]]; simpl; try lia.
  destruct (Z.even m); lia.
Qed.

Lemma shr_1_digits (mrs : shr_record) (k : Z) :
  Zdigits2 (shr_m mrs) <= k -> Zdigits2 (shr_m (shr_1 mrs)) <= k.
Proof.
  destruct mrs as [m r s]. simpl.
  destruct m as [ | [p | p | ] | [p | p | ]]; simpl; lia.
Qed.

Lemma shr_digits (mrs : shr_record) (e n : Z) :
  Zdigits2 (shr_m (fst (shr mrs e n))) <= Zdigits2 (shr_m mrs).
Proof.
  destruct n as [ | p | p]; simpl; try lia.
  apply (iter_pos_invariant (fun x => Zdigits2 (shr_m x) <= Zdigits2 (shr_m mrs))).
  - intros x. apply shr_1_digits.
  - lia.
Qed.

Lemma shr_exponent (mrs : shr_record) (e n : Z) :
  snd (shr mrs e n) = Z.max e (e + n).
Proof. destruct n; simpl; lia. Qed.

Lemma fexp_double (x : Z) : fexp prec emax x = Z.max (x - 53) (-1074).
Proof. reflexivity. Qed.

(** A mantissa of at most 400 bits at an exponent of at most 100 rounds to
    a double that is no infinity. *)
Lemma binary_round_aux_finite (s : bool) (m e : Z) (l : location) :
  0 <= m -> Zdigits2 m <= 400 -> e <= 100 ->
  is_finite (binary_round_aux prec emax s m e l) = true.
Proof.
  intros Hm Hd He. unfold binary_round_aux.
  pose proof (shr_fexp_nonneg m e l Hm) as H1.
  assert (Zdigits2 (shr_m (fst (shr_fexp prec emax m e l))) <= Zdigits2 m) as D1.
  { unfold shr_fexp. etransitivity; [apply shr_digits | ].
    rewrite shr_m_of_loc. lia. }
  assert (snd (shr_fexp prec emax m e l) <= 447) as E1.
  { unfold shr_fexp. rewrite shr_exponent, fexp_double. lia. }
  destruct (shr_fexp prec emax m e l) as [mrs' e']. simpl in H1, D1, E1.
  set (m1 := round_nearest_even (shr_m mrs') (loc_of_shr_record mrs')).
  pose proof (Zdigits2_round _ (loc_of_shr_record mrs') H1) as D2. fold m1 in D2.
  assert (snd (shr_fexp prec emax m1 e' loc_Exact) <= 795) as E2.
  { unfold shr_fexp. rewrite shr_exponent, fexp_double. lia. }
  pose proof (shr_fexp_nonneg m1 e' loc_Exact
                (round_nearest_even_nonneg _ _ H1)) as H2.
  destruct (shr_fexp prec emax m1 e' loc_Exact) as [mrs'' e''].
  simpl in E2, H2.
  destruct (shr_m mrs''); try reflexivity; [ | lia].
  destruct (Z.leb_spec e'' (emax - prec)) as [ | Hgt]; [reflexivity | ].
  unfold emax, prec in Hgt. lia.
Qed.

Lemma binary_round_finite (s : bool) (m : positive) :
  Z.pos m < 2 ^ 64 -> is_finite (binary_round prec emax s m 0) = true.
Proof.
  intros Hm. unfold binary_round.
  pose proof (digits2_pos_bound m 64 ltac:(lia) Hm) as Hd.
  rewrite fexp_double. unfold shl_align.
  destruct (Z.max (Z.pos (digits2_pos m) + 0 - 53) (-1074) - 0) as [ | k | k] eqn:Ek.
  - apply binary_round_aux_finite; simpl; lia.
  - apply binary_round_aux_finite; simpl; lia.
  - apply binary_round_aux_finite; simpl; try lia.
    rewrite digits2_pos_shift. lia.
Qed.

(** The conversion of a [long] to double is exact or rounded, and finite. *)
Lemma of_Z_finite (z : Z) : - 2 ^ 64 < z < 2 ^ 64 -> is_finite (of_Z z) = true.
Proof.
  intros Hz. unfold of_Z. destruct z as [ | p | p]; simpl.
  - reflexivity.
  - apply binary_round_finite. lia.
  - apply binary_round_finite. lia.
Qed.

Lemma of_Z_not_nan (z : Z) : is_nan (of_Z z) = false.
Proof.
  unfold of_Z. destruct z as [ | p | p]; simpl; try reflexivity.
  - pose proof (binary_round_signed false p 0) as H.
    destruct (binary_round prec emax false p 0); simpl in *; congruence.
  - pose proof (binary_round_signed true p 0) as H.
    destruct (binary_round prec emax true p 0); simpl in *; congruence.
Qed.

Lemma signed_not_nan (s : bool) (x : double) :
  signed s x = true -> is_nan x = false.
Proof. destruct x; simpl; congruence. Qed.

Lemma binary_normalize_not_nan (z e : Z) :
  is_nan (binary_normalize prec emax z e false) = false.
Proof.
  destruct z as [ | p | p]; simpl; try reflexivity.
  - apply (signed_not_nan false), binary_round_signed.
  - apply (signed_not_nan true), binary_round_signed.
Qed.

(** A sum with a finite term is a number. *)
Lemma dadd_not_nan (x y : double) :
  is_finite x = true -> is_nan y = false -> is_nan (dadd x y) = false.
Proof.
  unfold dadd.
  destruct x as [sx | sx | | sx mx ex], y as [sy | sy | | sy my ey]; simpl;
    try congruence; intros _ _;
    try (destruct sx, sy; reflexivity).
  apply binary_normalize_not_nan.
Qed.

(** A quotient of a finite number by a finite number that is not zero is a
    number. *)
Lemma ddiv_not_nan (x : double) (sy : bool) (my : positive) (ey : Z) :
  is_finite x = true -> is_nan (ddiv x (S754_finite sy my ey)) = false.
Proof.
  unfold ddiv.
  destruct x as [sx | sx | | sx mx ex]; simpl; try congruence; intros _.
  unfold SFdiv_core_binary.
  set (m' := match _ - _ - _ with Z0 => Z.pos mx | Z.pos _ => _ | Z.neg _ => 0 end).
  assert (0 <= m') as Hm'.
  { unfold m'. destruct (_ - _ - _); try lia. apply Z.shiftl_nonneg. lia. }
  pose proof (Z.div_pos m' (Z.pos my) Hm' ltac:(lia)) as Hq.
  unfold Z.div in Hq.
  destruct (Z.div_eucl m' (Z.pos my)) as [q r].
  apply (signed_not_nan (xorb sx sy)), binary_round_aux_signed, Hq.
Qed.

Lemma fabs_sign_clear (x : double) :
  is_nan x = false -> sign_clear (fabs x) = true.
Proof. destruct x; simpl; congruence. Qed.

Lemma sign_clear_nonneg (x : double) : sign_clear x = true -> nonneg x = true.
Proof.
  destruct x as [[] | [] | | [] m e]; simpl; intros H;
    try discriminate H; reflexivity.
Qed.

(** Sums of numbers with a clear sign bit have a clear sign bit. *)
Lemma dadd_sign_clear (x y : double) :
  sign_clear x = true -> sign_clear y = true -> sign_clear (dadd x y) = true.
Proof.
  unfold dadd.
  destruct x as [[] | [] | | [] mx ex], y as [[] | [] | | [] my ey]; simpl;
    try congruence; intros _ _.
  pose proof (binary_round_signed false
                (fst (shl_align mx ex (Z.min ex ey)) + fst (shl_align my ey (Z.min ex ey)))
                (Z.min ex ey)) as H.
  destruct (binary_round prec emax false _ _) as [[] | [] | | [] m e];
    simpl in *; congruence.
Qed.

(** Adding [+0] changes nothing but the sign of a negative zero. *)
Lemma dadd_zero_r (x : double) :
  dadd x d_zero = match x with S754_zero true => d_zero | _ => x end.
Proof. destruct x as [[] | [] | | [] m e]; reflexivity. Qed.

Lemma dadd_zero_l (x : double) :
  dadd d_zero x = match x with S754_zero true => d_zero | _ => x end.
Proof. destruct x as [[] | [] | | [] m e]; reflexivity. Qed.

End Exponents.

(** ** 64-bit subtraction *)

Section LongFacts.

Lemma wrap_range (z : Z) : Long.in_range (Long.wrap z).
Proof.
  unfold Long.in_range, Long.wrap, Long.min_signed, Long.max_signed, Long.modulus.
  pose proof (Z.mod_pos_bound (z + 2 ^ 63) (2 ^ 64) ltac:(lia)). lia.
Qed.

Lemma wrap_small (z : Z) : Long.in_range z -> Long.wrap z = z.
Proof.
  unfold Long.in_range, Long.wrap, Long.min_signed, Long.max_signed, Long.modulus.
  intros Hz. rewrite Z.mod_small; lia.
Qed.

Lemma sub_opp (a b : Z) :
  Long.in_range (a - b) -> Long.in_range (b - a) ->
  Long.sub b a = - Long.sub a b.
Proof.
  intros Hab Hba. unfold Long.sub. rewrite !wrap_small by assumption. lia.
Qed.

Lemma of_Z_sub_finite (a b : Z) : is_finite (of_Z (Long.sub a b)) = true.
Proof.
  apply of_Z_finite. pose proof (wrap_range (a - b)) as H.
  unfold Long.sub, Long.in_range, Long.min_signed, Long.max_signed in *. lia.
Qed.

End LongFacts.

(** ** The difference of two instants, POSIX branch *)

Section PosixDiff.

(** [fabs] is applied to a number, never to a NaN: the sign bit of the
    difference is clear. *)
Lemma posix_diff_sign_clear (a b : timeval) : sign_clear (posix_diff a b) = true.
Proof.
  unfold posix_diff. apply fabs_sign_clear, dadd_not_nan.
  - apply of_Z_sub_finite.
  - apply ddiv_not_nan, of_Z_sub_finite.
Qed.

Lemma posix_diff_nonneg (a b : timeval) : nonneg (posix_diff a b) = true.
Proof. apply sign_clear_nonneg, posix_diff_sign_clear. Qed.

(** The expression under [fabs] at negated differences. *)
Lemma fabs_seconds_opp (x y : Z) :
  fabs (dadd (of_Z (- x)) (ddiv (of_Z (- y)) d_1e6))
  = fabs (dadd (of_Z x) (ddiv (of_Z y) d_1e6)).
Proof.
  destruct (Z.eq_dec x 0) as [-> | Hx], (Z.eq_dec y 0) as [-> | Hy].
  - reflexivity.
  - change (of_Z (- 0)) with (S754_zero false).
    change (of_Z 0) with (S754_zero false).
    rewrite !fabs_dadd_zero_l, of_Z_opp, ddiv_opp_l by exact Hy.
    apply fabs_opp.
  - change (ddiv (of_Z (- 0)) d_1e6) with (S754_zero false).
    change (ddiv (of_Z 0) d_1e6) with (S754_zero false).
    rewrite !fabs_dadd_zero_r, of_Z_opp by exact Hx.
    apply fabs_opp.
  - rewrite !of_Z_opp, ddiv_opp_l by assumption.
    apply fabs_dadd_opp.
Qed.

Lemma posix_diff_sym (a b : timeval) :
  subtractable a b -> posix_diff a b = posix_diff b a.
Proof.
  intros (Hs1 & Hs2 & Hu1 & Hu2). unfold posix_diff.
  rewrite (sub_opp (tv_sec b) (tv_sec a)), (sub_opp (tv_usec b) (tv_usec a))
    by assumption.
  symmetry. apply fabs_seconds_opp.
Qed.

Lemma subtractable_sym (a b : timeval) : subtractable a b -> subtractable b a.
Proof. unfold subtractable. tauto. Qed.

(** Any two readings of [gettimeofday] can be subtracted. *)
Lemma normalized_subtractable (a b : timeval) :
  normalized a -> normalized b -> subtractable a b.
Proof.
  unfold normalized, subtractable, Long.in_range, Long.min_signed,
    Long.max_signed.
  lia.
Qed.

End PosixDiff.

(** ** The difference of two instants, _WIN32 branch *)

Section Win32Diff.

(** Exchanging the two instants negates the difference. *)
Lemma win32_diff_opp (freq a b : LARGE_INTEGER) :
  Long.in_range (QuadPart a - QuadPart b) ->
  Long.in_range (QuadPart b - QuadPart a) ->
  QuadPart a <> QuadPart b ->
  win32_diff freq a b = SFopp (win32_diff freq b a).
Proof.
  intros Hab Hba Hne. unfold win32_diff.
  rewrite (sub_opp (QuadPart a) (QuadPart b)) by assumption.
  rewrite of_Z_opp, ddiv_opp_l.
  - reflexivity.
  - unfold Long.sub. rewrite wrap_small by assumption. lia.
Qed.

End Win32Diff.

(** ** The member functions of Timer, on any platform *)

Section TimerFacts.
Context `{CS : ClockSource}.
Implicit Types (this : Timer.t) (c : Clock).

Import Timer.

Lemma start_eq this c :
  start this c =
  if m_ticking this then (tt, this, c)
  else (tt, {| m_ticking := true; m_starttime := reading c;
               m_elapsed := m_elapsed this |}, advance c).
Proof. unfold start, bind, get. simpl. destruct (m_ticking this); reflexivity. Qed.

Lemma stop_eq this c :
  stop this c =
  if m_ticking this
  then (tt, {| m_ticking := false; m_starttime := m_starttime this;
               m_elapsed := dadd (m_elapsed this)
                                 (diff (reading c) (m_starttime this)) |},
        advance c)
  else (tt, this, c).
Proof. unfold stop, bind, get. simpl. destruct (m_ticking this); reflexivity. Qed.

Lemma reset_eq this c :
  reset this c =
  (tt, {| m_ticking := false; m_starttime := m_starttime this;
          m_elapsed := d_zero |}, c).
Proof. reflexivity. Qed.

Lemma time_since_start_eq this c :
  time_since_start this c =
  if m_ticking this then (diff (m_starttime this) (reading c), this, advance c)
  else (d_zero, this, c).
Proof.
  unfold time_since_start, bind, get. simpl.
  destruct (m_ticking this); reflexivity.
Qed.

Lemma elapsed_total_eq this c :
  elapsed_total this c =
  (dadd (m_elapsed this) (result (time_since_start this c)), this,
   clock (time_since_start this c)).
Proof.
  unfold elapsed_total, bind, get. simpl. rewrite time_since_start_eq.
  destruct (m_ticking this); reflexivity.
Qed.

Lemma construct_eq indeterminate startnow c :
  construct indeterminate startnow c =
  if startnow
  then ({| m_ticking := true; m_starttime := reading c; m_elapsed := d_zero |},
        advance c)
  else ({| m_ticking := false; m_starttime := indeterminate;
           m_elapsed := d_zero |}, c).
Proof. destruct startnow; reflexivity. Qed.

Lemma stop_stops this c : m_ticking (object (stop this c)) = false.
Proof.
  rewrite stop_eq. destruct (m_ticking this) eqn:E; simpl; [reflexivity | exact E].
Qed.

(** What each call leaves in [m_elapsed]. *)
Lemma perform_elapsed op this c :
  m_elapsed (fst (perform op this c)) =
  match op with
  | Stop => if m_ticking this
            then dadd (m_elapsed this) (diff (reading c) (m_starttime this))
            else m_elapsed this
  | Reset => d_zero
  | _ => m_elapsed this
  end.
Proof.
  destruct op; simpl.
  - rewrite start_eq. destruct (m_ticking this); reflexivity.
  - rewrite stop_eq. destruct (m_ticking this); reflexivity.
  - reflexivity.
  - rewrite elapsed_total_eq. reflexivity.
  - rewrite time_since_start_eq. destruct (m_ticking this); reflexivity.
Qed.

(** An invariant of [m_elapsed] that the constructor establishes and every
    [stop()] keeps holds of every timer. *)
Lemma reachable_elapsed (P : double -> Prop) :
  P d_zero ->
  (forall e a b, P e -> P (dadd e (diff a b))) ->
  forall this, reachable this -> P (m_elapsed this).
Proof.
  intros H0 Hadd this Hr. induction Hr as [indeterminate startnow c | op this c Hr IH].
  - rewrite construct_eq. destruct startnow; exact H0.
  - rewrite perform_elapsed. destruct op; try exact IH; try exact H0.
    destruct (m_ticking this); [apply Hadd, IH | exact IH].
Qed.

Lemma run_accumulates ops :
  forall this c,
  well_bracketed ops (m_ticking this) = true ->
  m_ticking (fst (run ops this c)) = false /\
  m_elapsed (fst (run ops this c))
  = accumulate (m_elapsed this) (segments ops (open_segment this) c).
Proof.
  induction ops as [ | op ops IH]; intros this c Hwb; simpl in Hwb.
  - simpl. split; [ | reflexivity]. destruct (m_ticking this); [discriminate | reflexivity].
  - destruct op; try discriminate Hwb.
    + (* Start *)
      apply andb_prop in Hwb as [Hopen Hwb].
      apply negb_true_iff in Hopen.
      simpl. rewrite start_eq, Hopen. simpl.
      unfold open_segment at 1. rewrite Hopen.
      specialize (IH {| m_ticking := true; m_starttime := reading c;
                        m_elapsed := m_elapsed this |} (advance c) Hwb).
      exact IH.
    + (* Stop *)
      simpl. rewrite stop_eq. unfold open_segment at 1.
      destruct (m_ticking this) eqn:Hopen; simpl.
      * specialize (IH {| m_ticking := false; m_starttime := m_starttime this;
                          m_elapsed := dadd (m_elapsed this)
                                         (diff (reading c) (m_starttime this)) |}
                       (advance c) Hwb).
        exact IH.
      * specialize (IH this c).
        rewrite Hopen in IH. specialize (IH Hwb).
        unfold open_segment in IH. rewrite Hopen in IH. exact IH.
Qed.

(** The instants of the segments are the one of the open segment and
    readings of the clock. *)
Lemma segments_of_readings (P : value_t -> Prop) ops :
  forall open c,
  (forall i, P (readings c i)) ->
  (forall s, open = Some s -> P s) ->
  Forall (fun seg => P (fst seg) /\ P (snd seg)) (segments ops open c).
Proof.
  induction ops as [ | op ops IH]; intros open c Hc Hopen; simpl.
  - constructor.
  - destruct op; try (apply IH; assumption).
    + destruct open as [s | ].
      * apply IH; assumption.
      * apply IH; [exact Hc | ]. intros s [= <-]. apply Hc.
    + destruct open as [s | ].
      * constructor.
        -- split; [apply Hopen; reflexivity | apply Hc].
        -- apply IH; [exact Hc | discriminate].
      * apply IH; assumption.
Qed.

End TimerFacts.

(** ** The timer on the POSIX branch *)

Section PosixTimer.

Import Timer.
Local Existing Instance Posix.

(** The accumulated time of a timer is a number with a clear sign bit. *)
Lemma posix_elapsed_sign_clear (this : @Timer.t Posix) :
  reachable this -> sign_clear (m_elapsed this) = true.
Proof.
  apply (reachable_elapsed (fun e => sign_clear e = true)).
  - reflexivity.
  - intros e a b He. apply dadd_sign_clear; [exact He | ].
    apply posix_diff_sign_clear.
Qed.

Lemma posix_since_sign_clear (this : @Timer.t Posix) (c : @Clock Posix) :
  sign_clear (result (time_since_start this c)) = true.
Proof.
  rewrite time_since_start_eq. destruct (m_ticking this); simpl.
  - apply posix_diff_sign_clear.
  - reflexivity.
Qed.

Lemma accumulate_sign_clear (segs : list (timeval * timeval)) :
  forall e, sign_clear e = true ->
  sign_clear (@accumulate Posix e segs) = true.
Proof.
  induction segs as [ | seg segs IH]; intros e He; simpl.
  - exact He.
  - apply IH, dadd_sign_clear; [exact He | apply posix_diff_sign_clear].
Qed.

(** Where the subtractions are defined, what [stop()] adds for a segment
    is its duration, although it passes the two instants in the other order. *)
Lemma posix_accumulate_durations (segs : list (timeval * timeval)) :
  Forall (fun seg => subtractable (fst seg) (snd seg)) segs ->
  forall e,
  @accumulate Posix e segs
  = fold_left (fun acc seg => dadd acc (@duration Posix seg)) segs e.
Proof.
  induction 1 as [ | seg segs Hseg _ IH]; intros e; simpl.
  - reflexivity.
  - rewrite IH. unfold duration. simpl.
    rewrite (posix_diff_sym (fst seg) (snd seg) Hseg). reflexivity.
Qed.

(** On the POSIX branch the total of a well bracketed sequence of calls is
    the sum of the durations of its segments. *)
Lemma posix_elapsed_total_is_sum
    (ops : list call) (indeterminate : timeval) (c : @Clock Posix) :
  well_bracketed ops false = true ->
  Forall (fun seg => subtractable (fst seg) (snd seg)) (segments ops None c) ->
  let '(t0, c0) := construct indeterminate false c in
  let '(t1, c1) := run ops t0 c0 in
  result (elapsed_total t1 c1) = total_duration (segments ops None c).
Proof.
  intros Hwb Hsub. rewrite construct_eq.
  set (t0 := @Build_t Posix false indeterminate d_zero).
  destruct (run_accumulates ops t0 c Hwb) as [Hstopped Hsum].
  destruct (run ops t0 c) as [t1 c1]. simpl in Hstopped, Hsum.
  rewrite elapsed_total_eq, time_since_start_eq, Hstopped. simpl.
  rewrite dadd_zero_r, Hsum.
  change (open_segment t0) with (@None timeval).
  pose proof (accumulate_sign_clear (segments ops None c) d_zero eq_refl) as Hs.
  change (m_elapsed t0) with d_zero.
  rewrite posix_accumulate_durations in * by exact Hsub.
  unfold total_duration.
  destruct (fold_left _ _ d_zero) as [[] | | | ]; try reflexivity.
  discriminate Hs.
Qed.

(** A stopped timer reports its accumulated time, bit for bit. *)
Lemma posix_elapsed_total_stopped (this : @Timer.t Posix) (c : @Clock Posix) :
  reachable this -> m_ticking this = false ->
  elapsed_total this c = (m_elapsed this, this, c).
Proof.
  intros Hr Hstopped.
  rewrite elapsed_total_eq, time_since_start_eq, Hstopped. simpl.
  rewrite dadd_zero_r.
  pose proof (posix_elapsed_sign_clear this Hr) as Hs.
  destruct (m_elapsed this) as [[] | | | ]; try reflexivity.
  discriminate Hs.
Qed.

(** X4. On the POSIX branch, when the clock reports what [gettimeofday]
    stores, the total after a sequence of [start()] and [stop()] calls with
    no [start()] on a ticking timer and no segment left open, on a timer
    constructed stopped, is the sum of the durations of the segments, each
    measured from its start to its stop, added up in turn from 0. *)
Lemma posix_elapsed_total_is_sum_of_readings
    (ops : list call) (indeterminate : timeval) (c : @Clock Posix) :
  well_bracketed ops false = true ->
  (forall i, normalized (readings c i)) ->
  let '(t0, c0) := construct indeterminate false c in
  let '(t1, c1) := run ops t0 c0 in
  result (elapsed_total t1 c1) = total_duration (segments ops None c).
Proof.
  intros Hwb Hc. apply posix_elapsed_total_is_sum; [exact Hwb | ].
  pose proof (@segments_of_readings Posix normalized ops None c Hc
                ltac:(discriminate)) as Hsegs.
  induction Hsegs as [ | seg segs [Hfst Hsnd] _ IH]; constructor.
  - apply normalized_subtractable; assumption.
  - exact IH.
Qed.

End PosixTimer.

(** ** The timer on the _WIN32 branch *)

Section Win32Timer.

Import Timer.

(** X11. On the _WIN32 branch what [stop()] adds for the open segment is
    the opposite of what [time_since_start()] returns at the same reading
    of the counter, whenever the two counts differ. *)
Lemma win32_stop_adds_opposite
    (freq : LARGE_INTEGER) (this : @Timer.t (Win32 freq))
    (c : @Clock (Win32 freq)) :
  m_ticking this = true ->
  Long.in_range (QuadPart (reading c) - QuadPart (m_starttime this)) ->
  Long.in_range (QuadPart (m_starttime this) - QuadPart (reading c)) ->
  QuadPart (reading c) <> QuadPart (m_starttime this) ->
  m_elapsed (object (stop this c))
  = dadd (m_elapsed this) (SFopp (result (time_since_start this c))).
Proof.
  intros Hticking H1 H2 Hne.
  rewrite stop_eq, time_since_start_eq, Hticking. simpl.
  f_equal. apply win32_diff_opp; assumption.
Qed.

End Win32Timer.

(** * The claims of the specification *)

Section StateMachine.
Context `{CS : ClockSource}.
Implicit Types (this : Timer.t) (c : Clock).

Import Timer.

(** C3. [reset()] sets the accumulated time to 0 and the state to Stopped,
    whatever the state was, and reads no clock. The total read right after
    is exactly [+0]; a segment that was open is dropped: nothing of it is
    in the accumulated time, and a later [stop()] finds nothing to add. In
    particular [construct(false); start(); stop(); reset()] leaves a total
    of 0. *)
Theorem C3_reset_zeroes_and_stops this c :
  let r := reset this c in
  m_elapsed (object r) = d_zero /\
  m_ticking (object r) = false /\
  clock r = c /\
  (forall c', elapsed_total (object r) c' = (d_zero, object r, c')) /\
  (forall c', stop (object r) c' = (tt, object r, c')) /\
  (forall indeterminate c0,
     let '(t0, c1) := construct indeterminate false c0 in
     let '(t1, c2) := run [Start; Stop; Reset] t0 c1 in
     m_ticking t1 = false /\ result (elapsed_total t1 c2) = d_zero).
Proof.
  cbv zeta. rewrite reset_eq. simpl.
  repeat split.
Qed.

(** C4. [start()] on a timer that is ticking changes nothing: not the
    flag, not the start instant, not the accumulated time; it does not read
    the clock. The open segment goes on from its first start: the next
    [stop()] and every query see the timer as if the call had not been
    made. *)
Theorem C4_start_while_ticking_is_noop this c :
  m_ticking this = true ->
  start this c = (tt, this, c) /\
  m_starttime (object (start this c)) = m_starttime this /\
  stop (object (start this c)) (clock (start this c)) = stop this c /\
  time_since_start (object (start this c)) (clock (start this c))
  = time_since_start this c.
Proof.
  intros Hticking. rewrite start_eq, Hticking. simpl. repeat split.
Qed.

(** C5. [stop()] on a timer that is stopped changes nothing and reads no
    clock; so any number of further [stop()] calls after a segment leave
    the accumulated time as the first one left it. *)
Theorem C5_stop_while_stopped_is_noop this c :
  m_ticking this = false ->
  stop this c = (tt, this, c) /\
  m_elapsed (object (stop this c)) = m_elapsed this /\
  (forall k, run (repeat Stop k) this c = (this, c)) /\
  (forall this0 c0 k,
     this = object (stop this0 c0) -> c = clock (stop this0 c0) ->
     run (Stop :: repeat Stop k) this0 c0 = run [Stop] this0 c0).
Proof.
  intros Hstopped.
  assert (stop this c = (tt, this, c)) as Hstop
    by (rewrite stop_eq, Hstopped; reflexivity).
  assert (forall k, run (repeat Stop k) this c = (this, c)) as Hrepeat.
  { induction k as [ | k IH]; simpl.
    - reflexivity.
    - rewrite Hstop. simpl. exact IH. }
  split; [exact Hstop | ].
  split; [rewrite Hstop; reflexivity | ].
  split; [exact Hrepeat | ].
  intros this0 c0 k -> ->. simpl.
  destruct (stop this0 c0) as [[u this1] c1]. simpl in *. apply Hrepeat.
Qed.

(** C6. [operator()] returns [m_elapsed + time_since_start()], whether the
    timer is ticking or stopped, and leaves every field of the timer as it
    was. On a stopped timer it reads no clock and returns [m_elapsed]
    itself (the sum [m_elapsed + 0]: a negative zero would come back as
    [+0]). *)
Theorem C6_elapsed_total_is_sum_of_both this c :
  let r := elapsed_total this c in
  let s := time_since_start this c in
  result r = dadd (m_elapsed this) (result s) /\
  object r = this /\
  clock r = clock s /\
  r = if m_ticking this
      then (dadd (m_elapsed this) (diff (m_starttime this) (reading c)),
            this, advance c)
      else (match m_elapsed this with
            | S754_zero true => d_zero
            | _ => m_elapsed this
            end,
            this, c).
Proof.
  cbv zeta. rewrite elapsed_total_eq, time_since_start_eq.
  destruct (m_ticking this); simpl; repeat split.
  rewrite dadd_zero_r. reflexivity.
Qed.

(** What each call writes to the accumulated time, on either platform:
    [start()] leaves it as it was, the two queries leave the whole timer as
    it was, [reset()] sets it to 0, and [stop()] adds to it the difference
    it computed, when the timer was ticking. Whether that raises or lowers
    the accumulated time is the sign of the difference. *)
Lemma elapsed_written_by_stop_and_reset this c :
  m_elapsed (object (start this c)) = m_elapsed this /\
  object (elapsed_total this c) = this /\
  object (time_since_start this c) = this /\
  m_elapsed (object (reset this c)) = d_zero /\
  m_elapsed (object (stop this c))
  = (if m_ticking this
     then dadd (m_elapsed this) (diff (reading c) (m_starttime this))
     else m_elapsed this) /\
  (forall op, op <> Stop -> op <> Reset ->
     m_elapsed (fst (perform op this c)) = m_elapsed this).
Proof.
  rewrite start_eq, elapsed_total_eq, time_since_start_eq, stop_eq.
  repeat split; try (destruct (m_ticking this); reflexivity).
  intros op Hstop Hreset. rewrite perform_elapsed.
  destruct op; congruence.
Qed.

End StateMachine.

Section Platforms.

Import Timer.

(** C1, on the _WIN32 branch. A timer constructed stopped is started when
    the 10 MHz counter reads second 1 and stopped when it reads second 3:
    one segment, of a duration of 2 seconds, which [time_since_start()]
    reports as [2.0] at the instant of the stop. [stop()] passes the two
    instants to [diff] in the other order, and the total afterwards is
    [-2.0]. *)
Theorem C1_win32_total_is_negated_duration :
  let ops := [Start; Stop] in
  let '(t0, c0) := @construct (Win32 ten_MHz) (li 0) false win32_clock in
  let '(t1, c1) := run [Start] t0 c0 in
  let '(t2, c2) := run ops t0 c0 in
  well_bracketed ops false = true /\
  segments ops None c0 = [(li 10000000, li 30000000)] /\
  total_duration (segments ops None c0) = d_two /\
  result (time_since_start t1 c1) = d_two /\
  result (elapsed_total t2 c2) = SFopp d_two /\
  result (elapsed_total t2 c2) <> total_duration (segments ops None c0).
Proof.
  vm_compute. repeat split. discriminate.
Qed.

(** C9, on the _WIN32 branch. A timer constructed stopped is started when
    the 10 MHz counter reads second 1 and stopped when it reads second 3, a
    counter that runs forwards. [start()] leaves the accumulated time at 0;
    [stop()], which passes the two instants to [diff] in the other order,
    lowers it from 0 to [-2.0]; and [reset()] then raises it from [-2.0] to
    0. *)
Theorem C9_win32_stop_lowers_elapsed :
  let '(t0, c0) := @construct (Win32 ten_MHz) (li 0) false win32_clock in
  let '(t1, c1) := perform Start t0 c0 in
  let '(t2, c2) := perform Stop t1 c1 in
  let '(t3, c3) := perform Reset t2 c2 in
  m_elapsed t0 = d_zero /\
  m_elapsed t1 = m_elapsed t0 /\
  m_ticking t1 = true /\
  QuadPart (m_starttime t1) < QuadPart (reading c1) /\
  m_elapsed t2 = SFopp d_two /\
  SFltb (m_elapsed t2) (m_elapsed t1) = true /\
  m_elapsed t3 = d_zero /\
  SFltb (m_elapsed t2) (m_elapsed t3) = true.
Proof.
  vm_compute. repeat split.
Qed.

(** C2, on the POSIX branch. No elapsed time is negative: for
    every timer a program can hold and every reading of the clock, the
    total, the time since the start, the accumulated time before and after
    a [stop()] and the difference a [stop()] adds are all [>= 0.0]; the
    difference of any two instants is, in either order. *)
Theorem C2_posix_elapsed_never_negative
    (this : @Timer.t Posix) (c : @Clock Posix) :
  reachable this ->
  nonneg (result (elapsed_total this c)) = true /\
  nonneg (result (time_since_start this c)) = true /\
  nonneg (m_elapsed this) = true /\
  nonneg (@diff Posix (reading c) (m_starttime this)) = true /\
  nonneg (m_elapsed (object (stop this c))) = true /\
  (forall a b : timeval, nonneg (posix_diff a b) = true).
Proof.
  intros Hr.
  pose proof (posix_elapsed_sign_clear this Hr) as He.
  pose proof (posix_since_sign_clear this c) as Hs.
  repeat split.
  - rewrite elapsed_total_eq. simpl.
    apply sign_clear_nonneg, dadd_sign_clear; assumption.
  - apply sign_clear_nonneg, Hs.
  - apply sign_clear_nonneg, He.
  - apply posix_diff_nonneg.
  - apply sign_clear_nonneg.
    apply (posix_elapsed_sign_clear _ (reachable_perform Stop this c Hr)).
  - apply posix_diff_nonneg.
Qed.

Lemma C2_posix_witness :
  let this := fst (@construct Posix (tv 0 0) true posix_clock) in
  let c := snd (@construct Posix (tv 0 0) true posix_clock) in
  reachable this /\
  nonneg (result (elapsed_total this c)) = true /\
  nonneg (result (time_since_start this c)) = true /\
  nonneg (m_elapsed this) = true /\
  nonneg (@diff Posix (reading c) (m_starttime this)) = true /\
  nonneg (m_elapsed (object (stop this c))) = true /\
  (forall a b : timeval, nonneg (posix_diff a b) = true).
Proof.
  assert (reachable (fst (@construct Posix (tv 0 0) true posix_clock))) as H
    by apply (@reachable_construct Posix).
  split; [exact H | ].
  apply (C2_posix_elapsed_never_negative
           (fst (@construct Posix (tv 0 0) true posix_clock))
           (snd (@construct Posix (tv 0 0) true posix_clock)) H).
Defined.

(** C2, on the _WIN32 branch. No absolute value is taken: a timer started
    when the counter reads second 3 reports a negative total when the
    counter then reads second 1. *)
Lemma C2_win32_total_negative :
  let '(t0, c0) :=
    @construct (Win32 ten_MHz) (li 0) true win32_backwards_clock in
  nonneg (result (elapsed_total t0 c0)) = false /\
  negative (result (elapsed_total t0 c0)) = true.
Proof. vm_compute. split; reflexivity. Qed.

(** C7. [time_since_start()] of a ticking timer reads the
    clock and returns [diff (m_starttime, now)]; of a stopped timer it
    reads nothing and returns 0, so after any [stop()], after [reset()] and
    on a timer constructed with [startnow = false]. It leaves the timer as
    it was. On the POSIX branch the difference is an absolute value, and
    is not negative; on the _WIN32 branch it is the signed quotient of the
    counts by the frequency. *)
Theorem C7_time_since_start :
  (forall (CS : ClockSource) (this : Timer.t) (c : Clock),
     time_since_start this c =
     if m_ticking this
     then (diff (m_starttime this) (reading c), this, advance c)
     else (d_zero, this, c)) /\
  (forall (CS : ClockSource) (this : Timer.t) (c c' : Clock),
     time_since_start (object (stop this c)) c'
     = (d_zero, object (stop this c), c') /\
     time_since_start (object (reset this c)) c'
     = (d_zero, object (reset this c), c')) /\
  (forall (CS : ClockSource) (indeterminate : value_t) (c : Clock),
     let '(t0, c0) := construct indeterminate false c in
     time_since_start t0 c0 = (d_zero, t0, c0)) /\
  (forall a b : timeval,
     @diff Posix a b
     = fabs (dadd (of_Z (Long.sub (tv_sec b) (tv_sec a)))
                  (ddiv (of_Z (Long.sub (tv_usec b) (tv_usec a))) d_1e6)) /\
     nonneg (@diff Posix a b) = true) /\
  (forall freq a b : LARGE_INTEGER,
     @diff (Win32 freq) a b
     = ddiv (of_Z (Long.sub (QuadPart b) (QuadPart a))) (of_Z (QuadPart freq))).
Proof.
  split; [ | split; [ | split; [ | split]]].
  - intros CS this c. apply time_since_start_eq.
  - intros CS this c c'. rewrite !time_since_start_eq, stop_stops.
    split; reflexivity.
  - intros CS indeterminate c. reflexivity.
  - intros a b. split; [reflexivity | apply posix_diff_nonneg].
  - intros freq a b. reflexivity.
Qed.

(** C7, on the _WIN32 branch. The time since the start is not an absolute
    value: started at second 3 and read at second 1, it is [-2.0]. *)
Lemma C7_win32_since_start_signed :
  let '(t0, c0) :=
    @construct (Win32 ten_MHz) (li 0) true win32_backwards_clock in
  m_ticking t0 = true /\
  result (time_since_start t0 c0) = SFopp d_two /\
  result (time_since_start t0 c0)
  <> fabs (@diff (Win32 ten_MHz) (m_starttime t0) (reading c0)).
Proof. vm_compute. repeat split. discriminate. Qed.

(** C10. On the POSIX branch [diff] is symmetric wherever its subtractions
    are defined; so what [stop()] adds for the open segment, calling
    [diff (now, m_starttime)], is what [time_since_start()] returns at the
    same reading, calling [diff (m_starttime, now)]. *)
Theorem C10_posix_diff_symmetric (a b : timeval) :
  subtractable a b ->
  posix_diff a b = posix_diff b a /\
  forall (this : @Timer.t Posix) (c : @Clock Posix),
    m_ticking this = true -> m_starttime this = a -> reading c = b ->
    m_elapsed (object (stop this c))
    = dadd (m_elapsed this) (result (time_since_start this c)).
Proof.
  intros Hsub. split; [apply posix_diff_sym, Hsub | ].
  intros this c Hticking Ha Hb.
  rewrite stop_eq, time_since_start_eq, Hticking. simpl.
  rewrite Ha, Hb. f_equal. symmetry. apply posix_diff_sym, Hsub.
Qed.

Lemma C10_posix_diff_symmetric_witness :
  subtractable (tv 100 900000) (tv 102 100000) /\
  posix_diff (tv 100 900000) (tv 102 100000)
  = posix_diff (tv 102 100000) (tv 100 900000) /\
  forall (this : @Timer.t Posix) (c : @Clock Posix),
    m_ticking this = true -> m_starttime this = tv 100 900000 ->
    reading c = tv 102 100000 ->
    m_elapsed (object (stop this c))
    = dadd (m_elapsed this) (result (time_since_start this c)).
Proof.
  assert (subtractable (tv 100 900000) (tv 102 100000)) as H.
  { unfold subtractable, Long.in_range, Long.min_signed, Long.max_signed.
    simpl. lia. }
  split; [exact H | ].
  apply (C10_posix_diff_symmetric (tv 100 900000) (tv 102 100000) H).
Defined.

End Platforms.

Section Witnesses.

Import Timer.

Lemma C4_start_while_ticking_witness :
  let this := fst (@construct Posix (tv 0 0) true posix_clock) in
  let c := snd (@construct Posix (tv 0 0) true posix_clock) in
  m_ticking this = true /\
  start this c = (tt, this, c) /\
  m_starttime (object (start this c)) = m_starttime this /\
  stop (object (start this c)) (clock (start this c)) = stop this c /\
  time_since_start (object (start this c)) (clock (start this c))
  = time_since_start this c.
Proof.
  split; [reflexivity | ].
  apply (@C4_start_while_ticking_is_noop Posix
           (fst (@construct Posix (tv 0 0) true posix_clock))
           (snd (@construct Posix (tv 0 0) true posix_clock))).
  reflexivity.
Defined.

Lemma C5_stop_while_stopped_witness :
  let t0 := fst (@construct Posix (tv 0 0) false posix_clock) in
  let this := fst (run [Start; Stop] t0 posix_clock) in
  let c := snd (run [Start; Stop] t0 posix_clock) in
  m_ticking this = false /\
  stop this c = (tt, this, c) /\
  m_elapsed (object (stop this c)) = m_elapsed this /\
  (forall k, run (repeat Stop k) this c = (this, c)) /\
  (forall this0 c0 k,
     this = object (stop this0 c0) -> c = clock (stop this0 c0) ->
     run (Stop :: repeat Stop k) this0 c0 = run [Stop] this0 c0).
Proof.
  split; [reflexivity | ].
  apply (@C5_stop_while_stopped_is_noop Posix
           (fst (run [Start; Stop]
                   (fst (@construct Posix (tv 0 0) false posix_clock))
                   posix_clock))
           (snd (run [Start; Stop]
                   (fst (@construct Posix (tv 0 0) false posix_clock))
                   posix_clock))).
  reflexivity.
Defined.

End Witnesses.

(** ** ScopedTimer *)

Section Scoped.
Context `{CS : ClockSource}.

(** The world after the member function [m] of the timer at [ref], whose
    state is [obj], has run: the timer holds its new state, the clock is
    the one [m] leaves, every other timer is as it was. *)
Lemma through_eq {A : Type} (ref : address) (m : Method Timer.t A)
    (w : World Timer.t) (obj : Timer.t) :
  store w !! ref = Some obj ->
  through ref m w
  = Some (result (m obj (world_clock w)),
          {| store := <[ref := object (m obj (world_clock w))]> (store w);
             world_clock := clock (m obj (world_clock w)) |}).
Proof. intros Hobj. unfold through. rewrite Hobj. reflexivity. Qed.

(** C8. A scoped timer bound to the timer at [ref]: its constructor is
    [start()] of that timer, its destructor is [stop()] of that timer, and
    its own [start()], [stop()] and [reset()] are those of that timer.
    Nothing but that timer and the clock it reads changes. *)
Theorem C8_scoped_timer_forwards
    (w : World Timer.t) (ref : address) (obj : Timer.t) :
  store w !! ref = Some obj ->
  let after (m : Method Timer.t unit) : World Timer.t :=
    {| store := <[ref := object (m obj (world_clock w))]> (store w);
       world_clock := clock (m obj (world_clock w)) |} in
  let guard := {| ScopedTimer.m_timer := ref |} in
  ScopedTimer.construct ref w = Some (guard, after Timer.start) /\
  ScopedTimer.destruct guard w = Some (tt, after Timer.stop) /\
  ScopedTimer.start guard w = Some (tt, after Timer.start) /\
  ScopedTimer.stop guard w = Some (tt, after Timer.stop) /\
  ScopedTimer.reset guard w = Some (tt, after Timer.reset) /\
  (forall m, store (after m) !! ref = Some (object (m obj (world_clock w)))) /\
  (forall m other, other <> ref -> store (after m) !! other = store w !! other).
Proof.
  intros Hobj after guard.
  assert (forall m : Method Timer.t unit,
            through ref m w = Some (tt, after m)) as Hthrough.
  { intros m. rewrite (through_eq ref m w obj Hobj). unfold after.
    destruct (m obj (world_clock w)) as [[[] obj'] c']. reflexivity. }
  unfold ScopedTimer.construct, ScopedTimer.destruct, ScopedTimer.start,
    ScopedTimer.stop, ScopedTimer.reset. simpl.
  rewrite !Hthrough.
  repeat split.
  - intros m. simpl. apply lookup_insert_eq.
  - intros m other Hother. simpl. apply lookup_insert_ne. congruence.
Qed.

End Scoped.

Lemma C8_scoped_timer_witness :
  let obj := fst (@Timer.construct Posix (tv 0 0) false posix_clock) in
  let w := {| store := {[ 1%positive := obj ]}; world_clock := posix_clock |} in
  let ref := 1%positive in
  let after (m : Method Timer.t unit) : World Timer.t :=
    {| store := <[ref := object (m obj (world_clock w))]> (store w);
       world_clock := clock (m obj (world_clock w)) |} in
  let guard := {| ScopedTimer.m_timer := ref |} in
  store w !! ref = Some obj /\
  ScopedTimer.construct ref w = Some (guard, after Timer.start) /\
  ScopedTimer.destruct guard w = Some (tt, after Timer.stop) /\
  ScopedTimer.start guard w = Some (tt, after Timer.start) /\
  ScopedTimer.stop guard w = Some (tt, after Timer.stop) /\
  ScopedTimer.reset guard w = Some (tt, after Timer.reset) /\
  (forall m, store (after m) !! ref = Some (object (m obj (world_clock w)))) /\
  (forall m other, other <> ref -> store (after m) !! other = store w !! other).
Proof.
  split; [reflexivity | ].
  apply (@C8_scoped_timer_forwards Posix
           {| store := {[ 1%positive :=
                            fst (@Timer.construct Posix (tv 0 0) false posix_clock) ]};
              world_clock := posix_clock |}
           1%positive
           (fst (@Timer.construct Posix (tv 0 0) false posix_clock))).
  reflexivity.
Defined.

(** * Programs *)

(** ** Timers that no call can tell apart *)

Section Indistinguishable.
Context `{CS : ClockSource}.
Implicit Types (this : Timer.t) (c : Clock).

Import Timer.

Lemma same_timer_refl this : same_timer this this.
Proof. repeat split. Qed.

Lemma queries_same (t1 t2 : Timer.t) c :
  same_timer t1 t2 ->
  result (time_since_start t1 c) = result (time_since_start t2 c) /\
  result (elapsed_total t1 c) = result (elapsed_total t2 c).
Proof.
  intros (Hticking & Helapsed & Hstart).
  rewrite !elapsed_total_eq, !time_since_start_eq, <- Hticking, <- Helapsed.
  destruct (m_ticking t1); simpl; [rewrite Hstart by reflexivity | ];
    split; reflexivity.
Qed.

Lemma perform_same op (t1 t2 : Timer.t) c :
  same_timer t1 t2 ->
  same_timer (fst (perform op t1 c)) (fst (perform op t2 c)) /\
  snd (perform op t1 c) = snd (perform op t2 c).
Proof.
  intros (Hticking & Helapsed & Hstart).
  destruct op; simpl;
    rewrite ?start_eq, ?stop_eq, ?elapsed_total_eq, ?time_since_start_eq,
      <- ?Hticking, <- ?Helapsed;
    destruct (m_ticking t1) eqn:E; unfold object, clock, result; simpl;
    rewrite <- ?Hstart by reflexivity;
    repeat split; auto; congruence.
Qed.

Lemma run_same ops :
  forall (t1 t2 : Timer.t) c,
  same_timer t1 t2 ->
  same_timer (fst (run ops t1 c)) (fst (run ops t2 c)) /\
  snd (run ops t1 c) = snd (run ops t2 c) /\
  reports ops t1 c = reports ops t2 c.
Proof.
  induction ops as [ | op ops IH]; intros t1 t2 c Hsame.
  - simpl. auto.
  - destruct (perform_same op t1 t2 c Hsame) as [Hsame' Hclock].
    destruct (queries_same t1 t2 c Hsame) as [Hsince Htotal].
    simpl. rewrite Hsince, Htotal.
    destruct (perform op t1 c) as [t1' c1], (perform op t2 c) as [t2' c2].
    simpl in Hsame', Hclock. subst c2.
    destruct (IH t1' t2' c1 Hsame') as (H1 & H2 & H3).
    rewrite H3. auto.
Qed.

(** X1. The constructor leaves [m_starttime] without a value, and no call
    ever reads it before [start()] has written it: whatever the storage
    held, every sequence of calls reports the same values, reads the clock
    alike and ends in timers that no call can tell apart. *)
Theorem X1_indeterminate_start_time_is_never_read
    (i1 i2 : value_t) (startnow : bool) c (ops : list call) :
  let '(t1, c1) := construct i1 startnow c in
  let '(t2, c2) := construct i2 startnow c in
  c1 = c2 /\
  reports ops t1 c1 = reports ops t2 c2 /\
  snd (run ops t1 c1) = snd (run ops t2 c2) /\
  same_timer (fst (run ops t1 c1)) (fst (run ops t2 c2)).
Proof.
  rewrite !construct_eq. destruct startnow.
  - split; [reflexivity | ].
    destruct (run_same ops
                {| m_ticking := true; m_starttime := reading c; m_elapsed := d_zero |}
                {| m_ticking := true; m_starttime := reading c; m_elapsed := d_zero |}
                (advance c) (same_timer_refl _)) as (H1 & H2 & H3).
    auto.
  - split; [reflexivity | ].
    destruct (run_same ops
                {| m_ticking := false; m_starttime := i1; m_elapsed := d_zero |}
                {| m_ticking := false; m_starttime := i2; m_elapsed := d_zero |}
                c) as (H1 & H2 & H3); [ | auto].
    repeat split. discriminate.
Qed.

(** X2. After [reset()] a timer is as good as new: from then on every
    sequence of calls reports what it reports on a timer just constructed
    with [startnow = false], reads the clock alike and ends in a timer that
    no call can tell from that one. Nothing of the time before the
    [reset()], be it accumulated or in an open segment, shows again. *)
Theorem X2_reset_is_a_fresh_timer
    this c (indeterminate : value_t) (ops : list call) :
  let t := object (reset this c) in
  let '(t0, c0) := construct indeterminate false c in
  clock (reset this c) = c0 /\
  reports ops t c = reports ops t0 c0 /\
  snd (run ops t c) = snd (run ops t0 c0) /\
  same_timer (fst (run ops t c)) (fst (run ops t0 c0)).
Proof.
  rewrite construct_eq, reset_eq. simpl.
  split; [reflexivity | ].
  destruct (run_same ops
              {| m_ticking := false; m_starttime := m_starttime this;
                 m_elapsed := d_zero |}
              {| m_ticking := false; m_starttime := indeterminate;
                 m_elapsed := d_zero |}
              c) as (H1 & H2 & H3); [ | auto].
  repeat split. discriminate.
Qed.

End Indistinguishable.

(** ** Segments and polls *)

Section Segments.
Context `{CS : ClockSource}.
Implicit Types (this : Timer.t) (c : Clock).

Import Timer.

(** Every segment costs two readings of the clock, one of which has been
    made when the segment is open already; no other call reads it. *)
Lemma run_reads ops :
  forall this c,
  well_bracketed ops (m_ticking this) = true ->
  (position (snd (run ops this c)) + (if m_ticking this then 1 else 0))%nat
  = (position c + 2 * length (segments ops (open_segment this) c))%nat /\
  readings (snd (run ops this c)) = readings c.
Proof.
  induction ops as [ | op ops IH]; intros this c Hwb; simpl in Hwb.
  - destruct (m_ticking this); [discriminate | ]. simpl. split; [lia | reflexivity].
  - destruct op; try discriminate Hwb.
    + apply andb_prop in Hwb as [Hopen Hwb].
      apply negb_true_iff in Hopen.
      simpl. rewrite start_eq, Hopen.
      unfold open_segment, object, clock. rewrite Hopen. simpl.
      specialize (IH {| m_ticking := true; m_starttime := reading c;
                        m_elapsed := m_elapsed this |} (advance c) Hwb).
      unfold open_segment in IH. simpl in IH.
      destruct IH as [IH1 IH2]. split; [lia | exact IH2].
    + simpl. rewrite stop_eq. unfold open_segment, object, clock.
      destruct (m_ticking this) eqn:Hopen; simpl.
      * specialize (IH {| m_ticking := false; m_starttime := m_starttime this;
                          m_elapsed := dadd (m_elapsed this)
                                         (diff (reading c) (m_starttime this)) |}
                       (advance c) Hwb).
        unfold open_segment in IH. simpl in IH.
        destruct IH as [IH1 IH2]. split; [lia | exact IH2].
      * specialize (IH this c). rewrite Hopen in IH. specialize (IH Hwb).
        unfold open_segment in IH. rewrite Hopen in IH. exact IH.
Qed.

(** X3. On either platform, after a sequence of [start()] and [stop()]
    calls with no [start()] on a ticking timer and no segment left open, a
    timer is stopped, its accumulated time is what the [stop()] calls
    added up in turn from 0, one [diff (stop, start)] per segment,
    [operator()] returns that sum (plus 0) without reading the clock, and
    the clock has been read twice per segment and not once more: the
    [stop()] calls on a stopped timer read nothing. For a timer constructed
    ticking the first segment starts at the construction. *)
Theorem X3_accumulates_one_difference_per_segment
    (ops : list call) (indeterminate : value_t) (startnow : bool) c :
  well_bracketed ops startnow = true ->
  let '(t0, c0) := construct indeterminate startnow c in
  let '(t1, c1) := run ops t0 c0 in
  let segs := segments ops (if startnow then Some (reading c) else None) c0 in
  m_ticking t1 = false /\
  m_elapsed t1 = accumulate d_zero segs /\
  elapsed_total t1 c1 = (dadd (accumulate d_zero segs) d_zero, t1, c1) /\
  c1 = advance_by (2 * length segs) c.
Proof.
  intros Hwb. rewrite construct_eq.
  set (t0 := if startnow
             then {| m_ticking := true; m_starttime := reading c;
                     m_elapsed := d_zero |}
             else {| m_ticking := false; m_starttime := indeterminate;
                     m_elapsed := d_zero |}).
  set (c0 := if startnow then advance c else c).
  assert (m_ticking t0 = startnow) as Hflag by (destruct startnow; reflexivity).
  assert (m_elapsed t0 = d_zero) as Hzero by (destruct startnow; reflexivity).
  assert (open_segment t0 = if startnow then Some (reading c) else None)
    as Hopen by (destruct startnow; reflexivity).
  assert ((if startnow
           then ({| m_ticking := true; m_starttime := reading c;
                    m_elapsed := d_zero |}, advance c)
           else ({| m_ticking := false; m_starttime := indeterminate;
                    m_elapsed := d_zero |}, c)) = (t0, c0)) as ->
    by (destruct startnow; reflexivity).
  rewrite <- Hflag in Hwb.
  destruct (run_accumulates ops t0 c0 Hwb) as [Hstopped Hsum].
  destruct (run_reads ops t0 c0 Hwb) as [Hposition Hreadings].
  rewrite Hopen, Hzero in *. rewrite Hflag in Hposition.
  destruct (run ops t0 c0) as [t1 c1]. simpl in Hstopped, Hsum, Hposition, Hreadings.
  repeat split.
  - exact Hstopped.
  - exact Hsum.
  - rewrite elapsed_total_eq, time_since_start_eq, Hstopped, Hsum. reflexivity.
  - destruct c1 as [r1 p1]. unfold advance_by.
    simpl in Hposition, Hreadings. unfold c0 in *.
    destruct startnow; simpl in *; f_equal; try assumption; lia.
Qed.

(** A ticking timer that is polled: it stays as it is, every poll reads the
    clock once and measures from the same start instant. *)
Lemma polls_of_ticking qs :
  forall this c,
  forallb is_query qs = true ->
  m_ticking this = true ->
  run qs this c = (this, advance_by (length qs) c) /\
  length (reports qs this c) = length qs /\
  forall k, (k < length qs)%nat ->
    nth k (reports qs this c) d_zero
    = match nth k qs ElapsedTotal with
      | TimeSinceStart =>
          diff (m_starttime this) (readings c (k + position c))
      | _ =>
          dadd (m_elapsed this)
               (diff (m_starttime this) (readings c (k + position c)))
      end.
Proof.
  induction qs as [ | q qs IH]; intros this c Hqs Hticking.
  - simpl. repeat split.
    + destruct c; reflexivity.
    + intros k Hk. simpl in Hk. lia.
  - simpl in Hqs. apply andb_prop in Hqs as [Hq Hqs].
    destruct (IH this (advance c) Hqs Hticking) as (Hrun & Hlen & Hnth).
    assert (advance_by (length qs) (advance c) = advance_by (S (length qs)) c)
      as Hadv by (unfold advance_by, advance; simpl; f_equal; lia).
    assert (perform q this c = (this, advance c)) as Hperform.
    { destruct q; try discriminate Hq; simpl;
        rewrite ?elapsed_total_eq, time_since_start_eq, Hticking; reflexivity. }
    simpl. rewrite Hperform, Hrun, Hadv.
    split; [reflexivity | ].
    assert (length (match q with
                    | ElapsedTotal =>
                        result (elapsed_total this c) :: reports qs this (advance c)
                    | TimeSinceStart =>
                        result (time_since_start this c) :: reports qs this (advance c)
                    | _ => reports qs this (advance c)
                    end) = S (length qs)) as Hlen'
      by (destruct q; try discriminate Hq; simpl; rewrite Hlen; reflexivity).
    split; [exact Hlen' | ].
    intros [ | k] Hk.
    + destruct q; try discriminate Hq; simpl;
        rewrite ?elapsed_total_eq, time_since_start_eq, Hticking; reflexivity.
    + simpl in Hk. specialize (Hnth k ltac:(lia)).
      replace (S k + position c)%nat with (k + position (advance c))%nat
        by (simpl; lia).
      destruct q; try discriminate Hq; simpl; exact Hnth.
Qed.

End Segments.

(** ** Scopes *)

Section Scopes.
Context `{CS : ClockSource}.

Lemma run_app (ops1 ops2 : list Timer.call) :
  forall (this : Timer.t) (c : Clock),
  Timer.run (ops1 ++ ops2) this c
  = Timer.run ops2 (fst (Timer.run ops1 this c)) (snd (Timer.run ops1 this c)).
Proof.
  induction ops1 as [ | op ops1 IH]; intros this c; simpl.
  - reflexivity.
  - destruct (Timer.perform op this c) as [this' c']. apply IH.
Qed.

Lemma world_with_lookup (w : World Timer.t) ref obj c :
  store (world_with w ref obj c) !! ref = Some obj.
Proof. apply lookup_insert_eq. Qed.

Lemma world_with_again (w : World Timer.t) ref obj1 c1 obj2 c2 :
  world_with (world_with w ref obj1 c1) ref obj2 c2 = world_with w ref obj2 c2.
Proof. unfold world_with. simpl. rewrite insert_insert_eq. reflexivity. Qed.

Lemma world_with_same (w : World Timer.t) ref obj :
  store w !! ref = Some obj -> world_with w ref obj (world_clock w) = w.
Proof.
  intros Hobj. destruct w as [s c]. unfold world_with. simpl in *.
  rewrite insert_id by exact Hobj. reflexivity.
Qed.

(** A call of the scoped timer is the call of the timer it forwards to. *)
Lemma guard_perform_eq op (g : ScopedTimer.t) (w : World Timer.t) obj :
  store w !! ScopedTimer.m_timer g = Some obj ->
  guard_perform op g w
  = Some (tt, world_with w (ScopedTimer.m_timer g)
                (fst (Timer.perform (forwarded op) obj (world_clock w)))
                (snd (Timer.perform (forwarded op) obj (world_clock w)))).
Proof.
  intros Hobj.
  destruct op;
    unfold guard_perform, forwarded, Timer.perform, ScopedTimer.start,
      ScopedTimer.stop, ScopedTimer.reset, timer_start, timer_stop,
      timer_reset, Timer_TIMER;
    rewrite (through_eq _ _ w obj Hobj); unfold world_with.
  - destruct (Timer.start obj (world_clock w)) as [[[] obj'] c']. reflexivity.
  - destruct (Timer.stop obj (world_clock w)) as [[[] obj'] c']. reflexivity.
  - destruct (Timer.reset obj (world_clock w)) as [[[] obj'] c']. reflexivity.
Qed.

Lemma guard_run_eq ops (g : ScopedTimer.t) :
  forall (w : World Timer.t) obj,
  store w !! ScopedTimer.m_timer g = Some obj ->
  guard_run ops g w
  = Some (world_with w (ScopedTimer.m_timer g)
            (fst (Timer.run (map forwarded ops) obj (world_clock w)))
            (snd (Timer.run (map forwarded ops) obj (world_clock w)))).
Proof.
  induction ops as [ | op ops IH]; intros w obj Hobj; simpl.
  - rewrite world_with_same by exact Hobj. reflexivity.
  - rewrite (guard_perform_eq op g w obj Hobj).
    destruct (Timer.perform (forwarded op) obj (world_clock w)) as [obj' c'].
    simpl. rewrite (IH _ obj' (world_with_lookup w _ obj' c')).
    simpl. rewrite world_with_again. reflexivity.
Qed.

(** A block with a scoped timer is the program [start(); body; stop()] of
    the timer it is bound to. *)
Lemma scope_eq ref (body : list guard_call) (w : World Timer.t) obj :
  store w !! ref = Some obj ->
  scope ref body w
  = Some (world_with w ref
            (fst (Timer.run (Timer.Start :: map forwarded body ++ [Timer.Stop])
                    obj (world_clock w)))
            (snd (Timer.run (Timer.Start :: map forwarded body ++ [Timer.Stop])
                    obj (world_clock w)))).
Proof.
  intros Hobj. unfold scope, ScopedTimer.construct, ScopedTimer.destruct.
  set (g := {| ScopedTimer.m_timer := ref |}).
  change (ScopedTimer.start g w) with (guard_perform GuardStart g w).
  rewrite (guard_perform_eq GuardStart g w obj Hobj).
  change (forwarded GuardStart) with Timer.Start.
  change (Timer.run (Timer.Start :: map forwarded body ++ [Timer.Stop]) obj
            (world_clock w))
    with (let '(obj1, c1) := Timer.perform Timer.Start obj (world_clock w) in
          Timer.run (map forwarded body ++ [Timer.Stop]) obj1 c1).
  destruct (Timer.perform Timer.Start obj (world_clock w)) as [obj1 c1].
  simpl fst. simpl snd. cbv iota beta.
  change (ScopedTimer.m_timer g) with ref.
  rewrite (guard_run_eq body g _ obj1 (world_with_lookup w ref obj1 c1)).
  change (ScopedTimer.m_timer g) with ref.
  simpl world_clock. rewrite world_with_again, run_app.
  destruct (Timer.run (map forwarded body) obj1 c1) as [obj2 c2].
  simpl fst. simpl snd.
  change (ScopedTimer.stop g (world_with w ref obj2 c2))
    with (guard_perform GuardStop g (world_with w ref obj2 c2)).
  rewrite (guard_perform_eq GuardStop g _ obj2 (world_with_lookup w ref obj2 c2)).
  change (ScopedTimer.m_timer g) with ref.
  simpl world_clock. rewrite world_with_again. reflexivity.
Qed.

Lemma scope_stopped (body : list guard_call) (obj : Timer.t) (c : Clock) :
  Timer.m_ticking
    (fst (Timer.run (Timer.Start :: map forwarded body ++ [Timer.Stop]) obj c))
  = false.
Proof.
  change (Timer.Start :: map forwarded body ++ [Timer.Stop])
    with ((Timer.Start :: map forwarded body) ++ [Timer.Stop]).
  rewrite run_app.
  destruct (Timer.run (Timer.Start :: map forwarded body) obj c) as [obj' c'].
  simpl. apply stop_stops.
Qed.

(** X5. A block that holds a scoped timer bound to a live timer runs to
    its end whatever the timer's state and whatever calls the block makes
    on the scoped timer: for the timer the block is [start()], the
    forwarded calls, [stop()]. At the end of the block the timer is stopped;
    no other timer of the program has changed. *)
Theorem X5_scope_is_start_body_stop
    ref (body : list guard_call) (w : World Timer.t) (obj : Timer.t) :
  store w !! ref = Some obj ->
  let program := Timer.Start :: map forwarded body ++ [Timer.Stop] in
  let '(obj', c') := Timer.run program obj (world_clock w) in
  scope ref body w = Some (world_with w ref obj' c') /\
  Timer.m_ticking obj' = false /\
  store (world_with w ref obj' c') !! ref = Some obj' /\
  (forall other, other <> ref ->
     store (world_with w ref obj' c') !! other = store w !! other).
Proof.
  intros Hobj program.
  pose proof (scope_eq ref body w obj Hobj) as Hscope.
  pose proof (scope_stopped body obj (world_clock w)) as Hstopped.
  fold program in Hscope, Hstopped.
  destruct (Timer.run program obj (world_clock w)) as [obj' c'].
  simpl in Hscope, Hstopped.
  repeat split.
  - exact Hscope.
  - exact Hstopped.
  - apply world_with_lookup.
  - intros other Hother. simpl. apply lookup_insert_ne. congruence.
Qed.

(** X6. When a block with a scoped timer has ended, the destructor (or
    [stop()]) of any other scoped timer bound to the same timer changes
    nothing and reads no clock: of two nested blocks on one timer the
    inner one ends the timing, and the rest of the outer block is not
    measured. *)
Theorem X6_enclosing_scope_adds_nothing
    ref (body : list guard_call) (w : World Timer.t) (obj : Timer.t) :
  store w !! ref = Some obj ->
  exists w',
    scope ref body w = Some w' /\
    forall outer : ScopedTimer.t,
      ScopedTimer.m_timer outer = ref ->
      ScopedTimer.destruct outer w' = Some (tt, w') /\
      ScopedTimer.stop outer w' = Some (tt, w').
Proof.
  intros Hobj. rewrite (scope_eq ref body w obj Hobj).
  pose proof (scope_stopped body obj (world_clock w)) as Hstopped.
  destruct (Timer.run _ obj (world_clock w)) as [obj' c'].
  simpl in Hstopped. simpl fst. simpl snd.
  eexists. split; [reflexivity | ].
  intros outer Houter.
  assert (guard_perform GuardStop outer (world_with w ref obj' c')
          = Some (tt, world_with w ref obj' c')) as Hstop.
  { rewrite (guard_perform_eq GuardStop outer _ obj')
      by (rewrite Houter; apply world_with_lookup).
    simpl. rewrite stop_eq, Hstopped, Houter. simpl.
    rewrite world_with_again. reflexivity. }
  split; exact Hstop.
Qed.

End Scopes.

(** ** More of the POSIX branch *)

Section PosixPrograms.

Import Timer.
Local Existing Instance Posix.

Lemma fabs_of_Z (z : Z) : fabs (of_Z z) = of_Z (Z.abs z).
Proof.
  unfold of_Z. destruct z as [ | p | p]; simpl; try reflexivity.
  - pose proof (binary_round_signed false p 0) as H.
    destruct (binary_round prec emax false p 0) as [[] | [] | | [] m e];
      simpl in *; congruence.
  - rewrite (binary_round_opp false), fabs_opp.
    pose proof (binary_round_signed false p 0) as H.
    destruct (binary_round prec emax false p 0) as [[] | [] | | [] m e];
      simpl in *; congruence.
Qed.

(** X7. On the POSIX branch two instants with the same microseconds are a
    whole number of seconds apart, and [diff] returns that number,
    converted to double, in either order; an instant is at 0 from
    itself. *)
Theorem X7_posix_diff_of_whole_seconds (a b : timeval) :
  tv_usec a = tv_usec b ->
  Long.in_range (tv_sec b - tv_sec a) ->
  Long.in_range (tv_sec a - tv_sec b) ->
  posix_diff a b = of_Z (Z.abs (tv_sec b - tv_sec a)) /\
  posix_diff b a = of_Z (Z.abs (tv_sec b - tv_sec a)) /\
  posix_diff a a = d_zero.
Proof.
  intros Husec Hba Hab.
  assert (forall x y : timeval,
            tv_usec x = tv_usec y -> Long.in_range (tv_sec y - tv_sec x) ->
            posix_diff x y = of_Z (Z.abs (tv_sec y - tv_sec x))) as Hwhole.
  { intros x y Hu Hs. unfold posix_diff, Long.sub.
    rewrite Hu, Z.sub_diag, (wrap_small (tv_sec y - tv_sec x)) by exact Hs.
    change (ddiv (of_Z (Long.wrap 0)) d_1e6) with (S754_zero false).
    rewrite fabs_dadd_zero_r. apply fabs_of_Z. }
  repeat split.
  - apply Hwhole; assumption.
  - rewrite (Hwhole b a) by (symmetry in Husec; assumption).
    f_equal. lia.
  - unfold posix_diff, Long.sub. rewrite !Z.sub_diag. reflexivity.
Qed.

Lemma X7_posix_diff_of_whole_seconds_witness :
  tv_usec (tv 100 250000) = tv_usec (tv 103 250000) /\
  Long.in_range (tv_sec (tv 103 250000) - tv_sec (tv 100 250000)) /\
  Long.in_range (tv_sec (tv 100 250000) - tv_sec (tv 103 250000)) /\
  posix_diff (tv 100 250000) (tv 103 250000)
  = of_Z (Z.abs (tv_sec (tv 103 250000) - tv_sec (tv 100 250000))) /\
  posix_diff (tv 103 250000) (tv 100 250000)
  = of_Z (Z.abs (tv_sec (tv 103 250000) - tv_sec (tv 100 250000))) /\
  posix_diff (tv 100 250000) (tv 100 250000) = d_zero.
Proof.
  assert (Long.in_range (tv_sec (tv 103 250000) - tv_sec (tv 100 250000)))
    as H1 by (unfold Long.in_range, Long.min_signed, Long.max_signed; simpl; lia).
  assert (Long.in_range (tv_sec (tv 100 250000) - tv_sec (tv 103 250000)))
    as H2 by (unfold Long.in_range, Long.min_signed, Long.max_signed; simpl; lia).
  split; [reflexivity | ]. split; [exact H1 | ]. split; [exact H2 | ].
  apply (X7_posix_diff_of_whole_seconds (tv 100 250000) (tv 103 250000)
           eq_refl H1 H2).
Defined.

(** X8. On the POSIX branch a timer constructed ticking and then polled,
    by [operator()] or by [time_since_start()], stays as it was
    constructed; each poll reads the clock once, and the [k]-th poll
    reports the difference from the instant of the construction to the
    instant it read, the same from both queries. *)
Theorem X8_posix_polls_measure_from_construction
    (indeterminate : timeval) (c : @Clock Posix) (qs : list call) (k : nat) :
  forallb is_query qs = true ->
  (k < length qs)%nat ->
  let '(t0, c0) := construct indeterminate true c in
  run qs t0 c0 = (t0, advance_by (length qs) c0) /\
  length (reports qs t0 c0) = length qs /\
  nth k (reports qs t0 c0) d_zero
  = posix_diff (reading c) (readings c (S k + position c)).
Proof.
  intros Hqs Hk. rewrite construct_eq.
  set (t0 := @Build_t Posix true (reading c) d_zero).
  destruct (polls_of_ticking qs t0 (advance c) Hqs eq_refl)
    as (Hrun & Hlen & Hnth).
  split; [exact Hrun | ]. split; [exact Hlen | ].
  rewrite (Hnth k Hk). subst t0.
  cbn [m_elapsed m_starttime position advance].
  change (@diff Posix) with posix_diff.
  replace (k + S (position c))%nat with (S (k + position c)) by lia.
  change (S k + position c)%nat with (S (k + position c)).
  destruct (nth k qs ElapsedTotal); try reflexivity;
    rewrite dadd_zero_l;
    pose proof (posix_diff_sign_clear (reading c)
                  (readings c (S (k + position c)))) as Hs;
    destruct (posix_diff _ _) as [[] | | | ]; try reflexivity;
    discriminate Hs.
Qed.

Lemma X8_posix_polls_witness :
  forallb is_query [ElapsedTotal; TimeSinceStart] = true /\
  (1 < length [ElapsedTotal; TimeSinceStart])%nat /\
  let '(t0, c0) := @construct Posix (tv 0 0) true posix_clock in
  run [ElapsedTotal; TimeSinceStart] t0 c0
  = (t0, advance_by (length [ElapsedTotal; TimeSinceStart]) c0) /\
  length (reports [ElapsedTotal; TimeSinceStart] t0 c0)
  = length [ElapsedTotal; TimeSinceStart] /\
  nth 1 (reports [ElapsedTotal; TimeSinceStart] t0 c0) d_zero
  = posix_diff (reading posix_clock)
      (readings posix_clock (2 + position posix_clock)).
Proof.
  assert (1 < length [ElapsedTotal; TimeSinceStart])%nat as H by (simpl; lia).
  split; [reflexivity | ]. split; [exact H | ].
  apply (X8_posix_polls_measure_from_construction (tv 0 0) posix_clock
           [ElapsedTotal; TimeSinceStart] 1 eq_refl H).
Defined.

End PosixPrograms.

(** ** Instances *)

Section Instances.

Import Timer.

Lemma X3_accumulates_witness :
  let ops := [Stop; Stop; Start; Stop] in
  well_bracketed ops true = true /\
  let '(t0, c0) := @construct Posix (tv 0 0) true posix_clock in
  let '(t1, c1) := run ops t0 c0 in
  let segs := segments ops (Some (reading posix_clock)) c0 in
  m_ticking t1 = false /\
  m_elapsed t1 = accumulate d_zero segs /\
  elapsed_total t1 c1 = (dadd (accumulate d_zero segs) d_zero, t1, c1) /\
  c1 = advance_by (2 * length segs) posix_clock.
Proof.
  split; [reflexivity | ].
  apply (@X3_accumulates_one_difference_per_segment Posix
           [Stop; Stop; Start; Stop] (tv 0 0) true posix_clock eq_refl).
Defined.

Lemma posix_clock_normalized (i : nat) : normalized (readings posix_clock i).
Proof.
  unfold normalized, Long.max_signed.
  do 4 (destruct i as [ | i]; [simpl; lia | ]).
  simpl. destruct i; simpl; lia.
Qed.

Lemma posix_elapsed_total_is_sum_of_readings_witness :
  let ops := [Start; Stop; Stop; Start; Stop] in
  well_bracketed ops false = true /\
  (forall i, normalized (readings posix_clock i)) /\
  let '(t0, c0) := @construct Posix (tv 0 0) false posix_clock in
  let '(t1, c1) := run ops t0 c0 in
  result (elapsed_total t1 c1) = total_duration (segments ops None posix_clock).
Proof.
  split; [reflexivity | ]. split; [exact posix_clock_normalized | ].
  apply (posix_elapsed_total_is_sum_of_readings
           [Start; Stop; Stop; Start; Stop] (tv 0 0) posix_clock eq_refl
           posix_clock_normalized).
Defined.

Lemma win32_stop_adds_opposite_witness :
  let this := fst (@construct (Win32 ten_MHz) (li 0) true win32_clock) in
  let c := snd (@construct (Win32 ten_MHz) (li 0) true win32_clock) in
  m_ticking this = true /\
  Long.in_range (QuadPart (reading c) - QuadPart (m_starttime this)) /\
  Long.in_range (QuadPart (m_starttime this) - QuadPart (reading c)) /\
  QuadPart (reading c) <> QuadPart (m_starttime this) /\
  m_elapsed (object (stop this c))
  = dadd (m_elapsed this) (SFopp (result (time_since_start this c))).
Proof.
  assert (Long.in_range (30000000 - 10000000)) as H1
    by (unfold Long.in_range, Long.min_signed, Long.max_signed; lia).
  assert (Long.in_range (10000000 - 30000000)) as H2
    by (unfold Long.in_range, Long.min_signed, Long.max_signed; lia).
  assert (30000000 <> 10000000) as H3 by lia.
  split; [reflexivity | ]. split; [exact H1 | ]. split; [exact H2 | ].
  split; [exact H3 | ].
  apply (win32_stop_adds_opposite ten_MHz
           (fst (@construct (Win32 ten_MHz) (li 0) true win32_clock))
           (snd (@construct (Win32 ten_MHz) (li 0) true win32_clock))
           eq_refl H1 H2 H3).
Defined.

Lemma X5_scope_witness :
  let body := [GuardStop; GuardStart] in
  let obj := fst (@construct Posix (tv 0 0) false posix_clock) in
  store posix_world !! 1%positive = Some obj /\
  let program := Start :: map forwarded body ++ [Stop] in
  let '(obj', c') := run program obj (world_clock posix_world) in
  scope 1%positive body posix_world
  = Some (world_with posix_world 1%positive obj' c') /\
  m_ticking obj' = false /\
  store (world_with posix_world 1%positive obj' c') !! 1%positive = Some obj' /\
  (forall other, other <> 1%positive ->
     store (world_with posix_world 1%positive obj' c') !! other
     = store posix_world !! other).
Proof.
  split; [reflexivity | ].
  apply (@X5_scope_is_start_body_stop Posix 1%positive
           [GuardStop; GuardStart] posix_world
           (fst (@construct Posix (tv 0 0) false posix_clock)) eq_refl).
Defined.

Lemma X6_enclosing_scope_witness :
  store posix_world !! 1%positive
  = Some (fst (@construct Posix (tv 0 0) false posix_clock)) /\
  exists w',
    scope 1%positive [] posix_world = Some w' /\
    forall outer : ScopedTimer.t,
      ScopedTimer.m_timer outer = 1%positive ->
      ScopedTimer.destruct outer w' = Some (tt, w') /\
      ScopedTimer.stop outer w' = Some (tt, w').
Proof.
  split; [reflexivity | ].
  apply (@X6_enclosing_scope_adds_nothing Posix 1%positive [] posix_world
           (fst (@construct Posix (tv 0 0) false posix_clock)) eq_refl).
Defined.

End Instances.

(** * Magnitudes *)

(** ** Binary digits *)

Section Digits.

Lemma digits2_pos_lower (p : positive) :
  2 ^ (Z.pos (digits2_pos p) - 1) <= Z.pos p.
Proof.
  induction p as [p IH | p IH | ]; simpl digits2_pos.
  - rewrite Pos2Z.inj_succ.
    replace (Z.succ (Z.pos (digits2_pos p)) - 1)
      with (Z.succ (Z.pos (digits2_pos p) - 1)) by lia.
    rewrite Z.pow_succ_r by lia. lia.
  - rewrite Pos2Z.inj_succ.
    replace (Z.succ (Z.pos (digits2_pos p)) - 1)
      with (Z.succ (Z.pos (digits2_pos p) - 1)) by lia.
    rewrite Z.pow_succ_r by lia. lia.
  - simpl. lia.
Qed.

Lemma digits2_pos_upper (p : positive) :
  Z.pos p < 2 ^ Z.pos (digits2_pos p).
Proof.
  induction p as [p IH | p IH | ]; simpl digits2_pos.
  - rewrite Pos2Z.inj_succ, Z.pow_succ_r by lia. lia.
  - rewrite Pos2Z.inj_succ, Z.pow_succ_r by lia. lia.
  - simpl. lia.
Qed.

Lemma Zdigits2_nonneg (m : Z) : 0 <= Zdigits2 m.
Proof. destruct m; simpl; lia. Qed.

Lemma Zdigits2_abs (m : Z) : Zdigits2 (Z.abs m) = Zdigits2 m.
Proof. destruct m; reflexivity. Qed.

Lemma Zdigits2_upper (m : Z) : 0 <= m -> m < 2 ^ Zdigits2 m.
Proof.
  destruct m as [ | p | p]; simpl; intros Hm; try lia.
  apply digits2_pos_upper.
Qed.

Lemma Zdigits2_bound (m k : Z) : 0 <= m -> 0 <= k -> m < 2 ^ k -> Zdigits2 m <= k.
Proof.
  destruct m as [ | p | p]; simpl; intros Hm Hk Hlt; try lia.
  apply digits2_pos_bound; assumption.
Qed.

Lemma Zdigits2_pos_iff (m : Z) : 0 <= m -> (0 < m <-> 1 <= Zdigits2 m).
Proof. destruct m as [ | p | p]; simpl; lia. Qed.

Lemma Zdigits2_mono (a b : Z) : 0 <= a <= b -> Zdigits2 a <= Zdigits2 b.
Proof.
  intros [Ha Hab]. apply Zdigits2_bound; [exact Ha | apply Zdigits2_nonneg | ].
  pose proof (Zdigits2_upper b ltac:(lia)). lia.
Qed.

Lemma Zdigits2_add (a b : Z) :
  0 <= a -> 0 <= b ->
  Zdigits2 (a + b) <= Z.max (Zdigits2 a) (Zdigits2 b) + 1.
Proof.
  intros Ha Hb.
  pose proof (Zdigits2_nonneg a) as Da. pose proof (Zdigits2_nonneg b) as Db.
  apply Zdigits2_bound; try lia.
  pose proof (Zdigits2_upper a Ha) as Ua.
  pose proof (Zdigits2_upper b Hb) as Ub.
  assert (2 ^ Zdigits2 a <= 2 ^ Z.max (Zdigits2 a) (Zdigits2 b))
    by (apply Z.pow_le_mono_r; lia).
  assert (2 ^ Zdigits2 b <= 2 ^ Z.max (Zdigits2 a) (Zdigits2 b))
    by (apply Z.pow_le_mono_r; lia).
  rewrite Z.pow_add_r by lia. change (2 ^ 1) with 2. lia.
Qed.

Lemma Zdigits2_shiftl (m : positive) (s : Z) :
  0 <= s -> Zdigits2 (Z.shiftl (Z.pos m) s) <= Z.pos (digits2_pos m) + s.
Proof.
  intros Hs. rewrite Z.shiftl_mul_pow2 by exact Hs.
  apply Zdigits2_bound.
  - apply Z.mul_nonneg_nonneg; [lia | apply Z.pow_nonneg; lia].
  - lia.
  - rewrite Z.pow_add_r by lia.
    apply Z.mul_lt_mono_pos_r; [apply Z.pow_pos_nonneg; lia | ].
    apply digits2_pos_upper.
Qed.

(** An iteration that counts its steps. *)
Lemma iter_pos_count {A : Type} (Q : Z -> A -> Prop) (f : A -> A) :
  (forall k x, Q k x -> Q (k + 1) (f x)) ->
  forall p k x, Q k x -> Q (k + Z.pos p) (SpecFloat.iter_pos f p x).
Proof.
  intros Hf p. induction p as [p IH | p IH | ]; intros k x Hx; simpl.
  - replace (k + Z.pos p~1) with (k + 1 + Z.pos p + Z.pos p) by lia.
    apply IH, IH, Hf, Hx.
  - replace (k + Z.pos p~0) with (k + Z.pos p + Z.pos p) by lia.
    apply IH, IH, Hx.
  - apply Hf, Hx.
Qed.

Lemma shr_1_digits_exact (mrs : shr_record) :
  0 <= shr_m mrs ->
  Zdigits2 (shr_m (shr_1 mrs)) = Z.max (Zdigits2 (shr_m mrs) - 1) 0.
Proof.
  destruct mrs as [m r s]. simpl.
  destruct m as [ | [p | p | ] | [p | p | ]]; simpl; lia.
Qed.

(** Shifting [n] digits out leaves [n] digits less. *)
Lemma shr_digits_exact (mrs : shr_record) (e n : Z) :
  0 <= shr_m mrs ->
  Zdigits2 (shr_m (fst (shr mrs e n)))
  = Z.max (Zdigits2 (shr_m mrs) - Z.max n 0) 0.
Proof.
  intros Hm. pose proof (Zdigits2_nonneg (shr_m mrs)) as HD.
  destruct n as [ | p | p]; simpl fst; try lia.
  set (Q := fun (k : Z) (x : shr_record) =>
              0 <= k /\ 0 <= shr_m x /\
              Zdigits2 (shr_m x) = Z.max (Zdigits2 (shr_m mrs) - k) 0).
  assert (forall k x, Q k x -> Q (k + 1) (shr_1 x)) as Hstep.
  { intros k x (Hk & Hx & Hd). unfold Q. repeat split.
    - lia.
    - apply shr_1_nonneg, Hx.
    - rewrite shr_1_digits_exact by exact Hx. rewrite Hd. lia. }
  destruct (iter_pos_count Q shr_1 Hstep p 0 mrs) as (_ & _ & Hd).
  { unfold Q. repeat split; lia. }
  rewrite Hd. lia.
Qed.

End Digits.

(** ** The size of a rounded number *)

Section Sizes.

Lemma below_finite (B : Z) (x : double) : below B x -> is_finite x = true.
Proof. destruct x; simpl; tauto. Qed.

Lemma below_le (B B' : Z) (x : double) : B <= B' -> below B x -> below B' x.
Proof. destruct x; simpl; try tauto. lia. Qed.

Lemma below_fabs (B : Z) (x : double) : below B x -> below B (fabs x).
Proof. destruct x; simpl; tauto. Qed.

Lemma shr_fexp_exponent (m e : Z) (l : location) :
  snd (shr_fexp prec emax m e l) = Z.max e (Z.max (Zdigits2 m + e - 53) (-1074)).
Proof. unfold shr_fexp. rewrite shr_exponent, fexp_double. f_equal. ring. Qed.

Lemma shr_fexp_digits (m e : Z) (l : location) :
  0 <= m ->
  Zdigits2 (shr_m (fst (shr_fexp prec emax m e l)))
  = Z.max (Zdigits2 m
           - Z.max (Z.max (Zdigits2 m + e - 53) (-1074) - e) 0) 0.
Proof.
  intros Hm. unfold shr_fexp.
  rewrite shr_digits_exact by (rewrite shr_m_of_loc; exact Hm).
  rewrite shr_m_of_loc, fexp_double. reflexivity.
Qed.

(** Rounding a mantissa of magnitude below [2 ^ B] gives a number below
    [2 ^ (B + 1)], of the sign asked for. *)
Lemma binary_round_aux_below (s : bool) (m e : Z) (l : location) (B : Z) :
  0 <= m -> e <= B -> Zdigits2 m + e <= B -> -1074 <= B -> B + 1 <= 971 ->
  below (B + 1) (binary_round_aux prec emax s m e l).
Proof.
  intros Hm He HM HB Hmax. unfold binary_round_aux.
  pose proof (Zdigits2_nonneg m) as HD.
  pose proof (shr_fexp_nonneg m e l Hm) as H1.
  pose proof (shr_fexp_digits m e l Hm) as D1.
  pose proof (shr_fexp_exponent m e l) as E1.
  destruct (shr_fexp prec emax m e l) as [mrs' e1]. simpl in H1, D1, E1.
  set (m1 := round_nearest_even (shr_m mrs') (loc_of_shr_record mrs')).
  pose proof (round_nearest_even_nonneg _ (loc_of_shr_record mrs') H1) as H2.
  pose proof (Zdigits2_round _ (loc_of_shr_record mrs') H1) as D2.
  fold m1 in H2, D2.
  pose proof (Zdigits2_nonneg m1) as HD1.
  pose proof (shr_fexp_nonneg m1 e1 loc_Exact H2) as H3.
  pose proof (shr_fexp_digits m1 e1 loc_Exact H2) as D3.
  pose proof (shr_fexp_exponent m1 e1 loc_Exact) as E3.
  destruct (shr_fexp prec emax m1 e1 loc_Exact) as [mrs'' e2].
  simpl in H3, D3, E3.
  destruct (shr_m mrs'') as [ | mo | mo]; simpl in *; [exact I | | lia].
  destruct (Z.leb_spec e2 (emax - prec)) as [Hle | Hgt].
  - simpl. lia.
  - unfold emax, prec in Hgt. lia.
Qed.

Lemma shl_align_magnitude (m : positive) (e e' : Z) :
  snd (shl_align m e e') <= e /\
  Z.pos (digits2_pos (fst (shl_align m e e'))) + snd (shl_align m e e')
  = Z.pos (digits2_pos m) + e.
Proof.
  unfold shl_align. destruct (e' - e) as [ | d | d] eqn:E; simpl.
  - lia.
  - lia.
  - rewrite digits2_pos_shift. lia.
Qed.

Lemma binary_round_below (s : bool) (m : positive) (e B : Z) :
  e <= B -> Z.pos (digits2_pos m) + e <= B -> -1074 <= B -> B + 1 <= 971 ->
  below (B + 1) (binary_round prec emax s m e).
Proof.
  intros He HM HB Hmax. unfold binary_round.
  pose proof (shl_align_magnitude m e
                (fexp prec emax (Z.pos (digits2_pos m) + e))) as [H1 H2].
  destruct (shl_align m e _) as [mz ez]. simpl in H1, H2.
  apply binary_round_aux_below; simpl; lia.
Qed.

Lemma binary_normalize_below (z e B : Z) :
  e <= B -> Zdigits2 z + e <= B -> -1074 <= B -> B + 1 <= 971 ->
  below (B + 1) (binary_normalize prec emax z e false).
Proof.
  intros He HM HB Hmax. destruct z as [ | p | p]; simpl in *.
  - exact I.
  - apply binary_round_below; assumption.
  - apply binary_round_below; assumption.
Qed.

(** A 64-bit integer converts to a number below [2 ^ 65]. *)
Lemma of_Z_below (z : Z) : - 2 ^ 64 < z < 2 ^ 64 -> below 65 (of_Z z).
Proof.
  intros Hz. unfold of_Z.
  apply (binary_normalize_below z 0 64); try lia.
  rewrite <- Zdigits2_abs.
  pose proof (Zdigits2_bound (Z.abs z) 64 ltac:(lia) ltac:(lia) ltac:(lia)).
  lia.
Qed.

End Sizes.

(** ** The size of a quotient and of a sum *)

Section Arithmetic.

Lemma ddiv_below (x : double) (sy : bool) (my : positive) (ey B : Z) :
  below B x -> -1074 <= B - ey -> B - ey + 1 <= 971 ->
  below (B - ey + 1) (ddiv x (S754_finite sy my ey)).
Proof.
  unfold ddiv.
  destruct x as [sx | sx | | sx mx ex]; simpl; try tauto.
  intros [Hex HMx] HB Hmax.
  unfold SFdiv_core_binary.
  set (e' := Z.min _ (ex - ey)).
  assert (e' <= ex - ey) as He' by (unfold e'; lia).
  set (m' := match ex - ey - e' with
             | 0 => Z.pos mx
             | Z.pos _ => Z.shiftl (Z.pos mx) (ex - ey - e')
             | Z.neg _ => 0
             end).
  assert (0 <= m' /\ Zdigits2 m' <= Z.pos (digits2_pos mx) + (ex - ey - e'))
    as [Hm' Hd'].
  { unfold m'. destruct (ex - ey - e') as [ | s | s] eqn:Es.
    - simpl. lia.
    - split; [apply Z.shiftl_nonneg; lia | apply Zdigits2_shiftl; lia].
    - lia. }
  pose proof (Z.div_pos m' (Z.pos my) Hm' ltac:(lia)) as Hq.
  assert (m' / Z.pos my <= m') as Hle
    by (apply Z.div_le_upper_bound; nia).
  unfold Z.div in Hq, Hle.
  destruct (Z.div_eucl m' (Z.pos my)) as [q r].
  pose proof (Zdigits2_mono q m' (conj Hq Hle)) as Hdq.
  apply binary_round_aux_below; lia.
Qed.

Lemma shl_align_exponent (m : positive) (e e' : Z) :
  e' <= e -> snd (shl_align m e e') = e'.
Proof.
  intros He. unfold shl_align. destruct (e' - e) as [ | d | d] eqn:E; simpl; lia.
Qed.

Lemma dadd_below (x y : double) (B : Z) :
  below B x -> below B y -> -1074 <= B -> B + 2 <= 971 ->
  below (B + 2) (dadd x y).
Proof.
  unfold dadd.
  destruct x as [sx | sx | | sx mx ex], y as [sy | sy | | sy my ey]; simpl;
    try tauto.
  - intros _ _ _ _. destruct sx, sy; exact I.
  - intros _ Hy _ _. lia.
  - intros Hx _ _ _. lia.
  - intros [Hex HMx] [Hey HMy] HB Hmax.
    set (ez := Z.min ex ey).
    pose proof (shl_align_magnitude mx ex ez) as [_ Hax].
    pose proof (shl_align_magnitude my ey ez) as [_ Hay].
    rewrite shl_align_exponent in Hax by (unfold ez; lia).
    rewrite shl_align_exponent in Hay by (unfold ez; lia).
    set (ax := fst (shl_align mx ex ez)) in *.
    set (ay := fst (shl_align my ey ez)) in *.
    replace (B + 2) with (B + 1 + 1) by lia.
    assert (ez <= B) as Hez by (unfold ez; lia).
    apply binary_normalize_below; try lia.
    rewrite <- Zdigits2_abs.
    pose proof (Zdigits2_mono
                  (Z.abs (cond_Zopp sx (Z.pos ax) + cond_Zopp sy (Z.pos ay)))
                  (Z.pos ax + Z.pos ay)
                  ltac:(destruct sx, sy; simpl; lia)) as Hmono.
    pose proof (Zdigits2_add (Z.pos ax) (Z.pos ay) ltac:(lia) ltac:(lia)) as Hadd.
    simpl Zdigits2 in Hadd at 2 3. lia.
Qed.

(** The difference of two instants is a finite number, below [2 ^ 101]. *)
Lemma posix_diff_below (a b : timeval) : below 101 (posix_diff a b).
Proof.
  assert (forall x y, - 2 ^ 64 < Long.sub x y < 2 ^ 64) as Hsub.
  { intros x y. pose proof (wrap_range (x - y)) as H.
    unfold Long.sub, Long.in_range, Long.min_signed, Long.max_signed in *. lia. }
  unfold posix_diff. apply below_fabs.
  apply (dadd_below _ _ 99); try lia.
  - apply (below_le 65); [lia | apply of_Z_below, Hsub].
  - apply (ddiv_below _ false 8589934592000000 (-33) 65); try lia.
    apply of_Z_below, Hsub.
Qed.

End Arithmetic.

Section PosixFinite.

Import Timer.

(** X9. On the POSIX branch [diff] never returns a NaN or an infinity,
    whatever the two [struct timeval] hold: its result is a finite double
    that is not negative. So are the time since the start and what a
    [stop()] adds. *)
Theorem X9_posix_diff_is_finite (a b : timeval) :
  is_finite (posix_diff a b) = true /\
  nonneg (posix_diff a b) = true /\
  (forall (this : @Timer.t Posix) (c : @Clock Posix),
     is_finite (result (time_since_start this c)) = true /\
     is_finite (@diff Posix (reading c) (m_starttime this)) = true).
Proof.
  split; [apply (below_finite 101), posix_diff_below | ].
  split; [apply posix_diff_nonneg | ].
  intros this c. split.
  - rewrite time_since_start_eq. destruct (m_ticking this); simpl.
    + apply (below_finite 101), posix_diff_below.
    + reflexivity.
  - apply (below_finite 101), posix_diff_below.
Qed.

End PosixFinite.

(** ** Numbers that do not round to zero *)

Section Nonzero.

Lemma round_nearest_even_ge (m : Z) (l : location) : m <= round_nearest_even m l.
Proof.
  destruct l as [ | [ | | ]]; simpl; try lia. destruct (Z.even m); lia.
Qed.

(** A mantissa that is not 0 and lies in the normal range does not round
    to a zero. *)
Lemma binary_round_aux_nonzero (s : bool) (m e : Z) (l : location) :
  0 < m -> -1074 <= Zdigits2 m + e - 53 ->
  forall s', binary_round_aux prec emax s m e l <> S754_zero s'.
Proof.
  intros Hm HM s'. unfold binary_round_aux.
  assert (0 <= m) as Hm0 by lia.
  pose proof (proj1 (Zdigits2_pos_iff m Hm0) Hm) as HD.
  pose proof (shr_fexp_nonneg m e l Hm0) as H1.
  pose proof (shr_fexp_digits m e l Hm0) as D1.
  pose proof (shr_fexp_exponent m e l) as E1.
  destruct (shr_fexp prec emax m e l) as [mrs' e1]. simpl in H1, D1, E1.
  set (m1 := round_nearest_even (shr_m mrs') (loc_of_shr_record mrs')).
  pose proof (round_nearest_even_ge (shr_m mrs') (loc_of_shr_record mrs')) as G2.
  pose proof (Zdigits2_round _ (loc_of_shr_record mrs') H1) as D2.
  fold m1 in G2, D2.
  assert (0 <= m1) as H2 by lia.
  pose proof (Zdigits2_mono (shr_m mrs') m1 (conj H1 G2)) as M2.
  pose proof (shr_fexp_nonneg m1 e1 loc_Exact H2) as H3.
  pose proof (shr_fexp_digits m1 e1 loc_Exact H2) as D3.
  destruct (shr_fexp prec emax m1 e1 loc_Exact) as [mrs'' e2].
  simpl in H3, D3.
  assert (1 <= Zdigits2 (shr_m mrs'')) as HD3 by lia.
  destruct (shr_m mrs'') as [ | mo | mo]; simpl in HD3; try lia.
  destruct (e2 <=? emax - prec); discriminate.
Qed.

Lemma binary_round_nonzero (s : bool) (m : positive) (e : Z) :
  -1074 <= Z.pos (digits2_pos m) + e - 53 ->
  forall s', binary_round prec emax s m e <> S754_zero s'.
Proof.
  intros HM s'. unfold binary_round.
  pose proof (shl_align_magnitude m e
                (fexp prec emax (Z.pos (digits2_pos m) + e))) as [H1 H2].
  destruct (shl_align m e _) as [mz ez]. simpl in H1, H2.
  apply binary_round_aux_nonzero; simpl; lia.
Qed.

(** A positive 64-bit integer converts to a positive finite number. *)
Lemma of_Z_positive (z : Z) :
  0 < z < 2 ^ 64 -> exists m e, of_Z z = S754_finite false m e.
Proof.
  intros Hz. destruct z as [ | p | p]; try lia.
  pose proof (of_Z_finite (Z.pos p) ltac:(lia)) as Hfinite.
  pose proof (binary_round_signed false p 0) as Hsigned.
  pose proof (binary_round_nonzero false p 0 ltac:(lia)) as Hnonzero.
  unfold of_Z in *. simpl in *.
  destruct (binary_round prec emax false p 0) as [s | s | | s m e];
    try discriminate.
  - exfalso. apply (Hnonzero s). reflexivity.
  - destruct s; [discriminate | ]. eauto.
Qed.

Lemma of_Z_nonneg_signed (z : Z) : 0 <= z -> sign_clear (of_Z z) = true.
Proof.
  intros Hz. destruct z as [ | p | p]; try lia; [reflexivity | ].
  pose proof (binary_round_signed false p 0) as H.
  unfold of_Z. simpl.
  destruct (binary_round prec emax false p 0) as [[] | [] | | [] m e];
    simpl in *; congruence.
Qed.

(** The quotient of a number that is not negative by a positive finite
    number is a number that is not negative. *)
Lemma ddiv_sign_clear (x : double) (my : positive) (ey : Z) :
  is_finite x = true -> sign_clear x = true ->
  sign_clear (ddiv x (S754_finite false my ey)) = true.
Proof.
  intros Hfinite Hsign.
  pose proof (ddiv_not_nan x false my ey Hfinite) as Hnan.
  unfold ddiv in *.
  destruct x as [[] | [] | | [] mx ex]; try discriminate; try reflexivity.
  simpl in *.
  destruct (SFdiv_core_binary prec emax (Z.pos mx) ex (Z.pos my) ey)
    as [[mz ez] lz].
  unfold binary_round_aux in *.
  destruct (shr_fexp prec emax mz ez lz) as [mrs' e'].
  destruct (shr_fexp prec emax _ e' loc_Exact) as [mrs'' e''].
  destruct (shr_m mrs''); try reflexivity; try discriminate.
  destruct (e'' <=? emax - prec); reflexivity.
Qed.

End Nonzero.

Section Win32Forward.

Import Timer.

(** X10. On the _WIN32 branch, with a positive frequency, the difference
    from an instant to one that is not earlier is a number that is not
    negative; so [time_since_start()] of a ticking timer is not negative
    as long as the counter has not gone backwards since the start. *)
Theorem X10_win32_forward_counter_is_not_negative
    (freq : LARGE_INTEGER) (this : @Timer.t (Win32 freq))
    (c : @Clock (Win32 freq)) :
  0 < QuadPart freq <= Long.max_signed ->
  m_ticking this = true ->
  QuadPart (m_starttime this) <= QuadPart (reading c) ->
  Long.in_range (QuadPart (reading c) - QuadPart (m_starttime this)) ->
  time_since_start this c
  = (win32_diff freq (m_starttime this) (reading c), this, advance c) /\
  sign_clear (result (time_since_start this c)) = true /\
  nonneg (result (time_since_start this c)) = true.
Proof.
  intros Hfreq Hticking Hforward Hrange.
  rewrite time_since_start_eq, Hticking. simpl.
  assert (sign_clear (win32_diff freq (m_starttime this) (reading c)) = true)
    as Hsign.
  { unfold win32_diff, Long.sub. rewrite wrap_small by exact Hrange.
    destruct (of_Z_positive (QuadPart freq)) as (mf & ef & ->).
    { unfold Long.max_signed in Hfreq. lia. }
    apply ddiv_sign_clear.
    - apply of_Z_finite.
      unfold Long.in_range, Long.min_signed, Long.max_signed in Hrange. lia.
    - apply of_Z_nonneg_signed. lia. }
  repeat split.
  - exact Hsign.
  - apply sign_clear_nonneg, Hsign.
Qed.

Lemma X10_win32_forward_counter_witness :
  let this := fst (@construct (Win32 ten_MHz) (li 0) true win32_clock) in
  let c := snd (@construct (Win32 ten_MHz) (li 0) true win32_clock) in
  0 < QuadPart ten_MHz <= Long.max_signed /\
  m_ticking this = true /\
  QuadPart (m_starttime this) <= QuadPart (reading c) /\
  Long.in_range (QuadPart (reading c) - QuadPart (m_starttime this)) /\
  time_since_start this c
  = (win32_diff ten_MHz (m_starttime this) (reading c), this, advance c) /\
  sign_clear (result (time_since_start this c)) = true /\
  nonneg (result (time_since_start this c)) = true.
Proof.
  assert (0 < 10000000 <= Long.max_signed) as H1
    by (unfold Long.max_signed; lia).
  assert (10000000 <= 30000000) as H2 by lia.
  assert (Long.in_range (30000000 - 10000000)) as H3
    by (unfold Long.in_range, Long.min_signed, Long.max_signed; lia).
  split; [exact H1 | ]. split; [reflexivity | ]. split; [exact H2 | ].
  split; [exact H3 | ].
  apply (X10_win32_forward_counter_is_not_negative ten_MHz
           (fst (@construct (Win32 ten_MHz) (li 0) true win32_clock))
           (snd (@construct (Win32 ten_MHz) (li 0) true win32_clock))
           H1 eq_refl H2 H3).
Defined.

End Win32Forward.

Section PosixSubSecond.

Lemma fabs_sign_clear_id (x : double) : sign_clear x = true -> fabs x = x.
Proof. destruct x as [[] | [] | | [] m e]; simpl; congruence. Qed.

Lemma fabs_ddiv_of_Z (z : Z) :
  - 2 ^ 64 < z < 2 ^ 64 ->
  fabs (ddiv (of_Z z) d_1e6) = ddiv (of_Z (Z.abs z)) d_1e6.
Proof.
  assert (forall y, 0 <= y < 2 ^ 64 ->
            fabs (ddiv (of_Z y) d_1e6) = ddiv (of_Z y) d_1e6) as Hpos.
  { intros y Hy. apply fabs_sign_clear_id.
    apply (ddiv_sign_clear _ 8589934592000000 (-33)).
    - apply of_Z_finite. lia.
    - apply of_Z_nonneg_signed. lia. }
  intros Hz. destruct (Z_lt_le_dec z 0) as [Hneg | Hnonneg].
  - replace z with (- - z) at 1 by lia.
    rewrite of_Z_opp, ddiv_opp_l, fabs_opp by lia.
    rewrite Z.abs_neq by lia. apply Hpos. lia.
  - rewrite Z.abs_eq by exact Hnonneg. apply Hpos. lia.
Qed.

(** X12. On the POSIX branch two instants of the same second are apart by
    their microseconds: [diff] returns the number of microseconds between
    them, converted to double and divided by [1e6], in either order. *)
Theorem X12_posix_diff_within_a_second (a b : timeval) :
  tv_sec a = tv_sec b ->
  Long.in_range (tv_usec b - tv_usec a) ->
  Long.in_range (tv_usec a - tv_usec b) ->
  posix_diff a b = ddiv (of_Z (Z.abs (tv_usec b - tv_usec a))) d_1e6 /\
  posix_diff b a = ddiv (of_Z (Z.abs (tv_usec b - tv_usec a))) d_1e6.
Proof.
  intros Hsec Hba Hab.
  assert (forall x y : timeval,
            tv_sec x = tv_sec y -> Long.in_range (tv_usec y - tv_usec x) ->
            posix_diff x y = ddiv (of_Z (Z.abs (tv_usec y - tv_usec x))) d_1e6)
    as Hsame.
  { intros x y Hs Hu. unfold posix_diff, Long.sub.
    rewrite Hs, Z.sub_diag, (wrap_small (tv_usec y - tv_usec x)) by exact Hu.
    change (of_Z (Long.wrap 0)) with (S754_zero false).
    rewrite fabs_dadd_zero_l. apply fabs_ddiv_of_Z.
    unfold Long.in_range, Long.min_signed, Long.max_signed in Hu. lia. }
  split.
  - apply Hsame; assumption.
  - rewrite (Hsame b a) by (symmetry in Hsec; assumption).
    do 2 f_equal. lia.
Qed.

Lemma X12_posix_diff_within_a_second_witness :
  tv_sec (tv 100 250000) = tv_sec (tv 100 750000) /\
  Long.in_range (tv_usec (tv 100 750000) - tv_usec (tv 100 250000)) /\
  Long.in_range (tv_usec (tv 100 250000) - tv_usec (tv 100 750000)) /\
  posix_diff (tv 100 250000) (tv 100 750000)
  = ddiv (of_Z (Z.abs (tv_usec (tv 100 750000) - tv_usec (tv 100 250000))))
         d_1e6 /\
  posix_diff (tv 100 750000) (tv 100 250000)
  = ddiv (of_Z (Z.abs (tv_usec (tv 100 750000) - tv_usec (tv 100 250000))))
         d_1e6.
Proof.
  assert (Long.in_range (tv_usec (tv 100 750000) - tv_usec (tv 100 250000)))
    as H1 by (unfold Long.in_range, Long.min_signed, Long.max_signed; simpl; lia).
  assert (Long.in_range (tv_usec (tv 100 250000) - tv_usec (tv 100 750000)))
    as H2 by (unfold Long.in_range, Long.min_signed, Long.max_signed; simpl; lia).
  split; [reflexivity | ]. split; [exact H1 | ]. split; [exact H2 | ].
  apply (X12_posix_diff_within_a_second (tv 100 250000) (tv 100 750000)
           eq_refl H1 H2).
Defined.

End PosixSubSecond.
